(** * KUID: base-62 compressed UUIDs

    A shallow embedding of [kuid.go] (package [kuid]) together with the
    pieces of the Go standard library and run time it relies on
    ([strings], [encoding/hex], [encoding/binary], the rune decoding of
    [range] over a string), and the properties of the conversions between
    UUID text, 16 raw bytes and the 22-character compact text.

    Conventions of the embedding:
    - a Go [string] and a Go [[]byte] are both [list byte];
    - a Go [int] is a [Z]; a [uint64] is a [Z] in [0, 2^64), with the
      wrap-around of [*] and [+] written out as [mod 2^64];
    - a Go function returning [(T, error)] returns a [result T]; a run-time
      panic (index or slice out of range, nil dereference) is the third
      outcome [Panic];
    - a [*KUID] is an [option KUID], [None] being [nil].

    [NewKUID] takes the system's entropy source as a parameter. *)

From Stdlib Require Import ZArith Lia Bool.
From Stdlib Require Import Strings.Byte Strings.String.
From Stdlib Require Import List.
Import ListNotations.

Local Open Scope Z_scope.

(* ================================================================= *)
(** ** Outcomes of a call *)

Inductive error : Type :=
| ErrInvalidLength        (* errors.New("invalid KUID string length") *)
| ErrInvalidChar          (* errors.New("invalid character in KUID string") *)
| ErrInvalidUUID          (* errors.New("invalid UUID format") *)
| ErrorsNew (msg : string)         (* any other errors.New(msg) value *)
| HexErrLength                     (* hex.ErrLength *)
| HexInvalidByteError (b : byte).  (* hex.InvalidByteError(b) *)

Inductive result (A : Type) : Type :=
| Ok (a : A)
| Err (e : error)
| Panic.

Arguments Ok {A} a.
Arguments Err {A} e.
Arguments Panic {A}.

Definition bind {A B : Type} (m : result A) (k : A -> result B) : result B :=
  match m with
  | Ok a => k a
  | Err e => Err e
  | Panic => Panic
  end.

Notation "x <- m ;; k" := (bind m (fun x => k))
  (at level 61, m at next level, right associativity).

(* ================================================================= *)
(** ** Strings, slices and machine integers *)

Definition gostring : Type := list byte.

(** A string literal of the source. *)
Definition str (s : string) : gostring := list_byte_of_string s.

Definition len {A : Type} (s : list A) : Z := Z.of_nat (length s).

(** [s[i]]: panics outside [0 <= i < len(s)]. *)
Definition index {A : Type} (s : list A) (i : Z) : result A :=
  if i <? 0 then Panic
  else match nth_error s (Z.to_nat i) with
       | Some c => Ok c
       | None => Panic
       end.

(** [s[lo:hi]]: panics unless [0 <= lo <= hi <= len(s)]. *)
Definition slice {A : Type} (s : list A) (lo hi : Z) : result (list A) :=
  if (0 <=? lo) && (lo <=? hi) && (hi <=? len s)
  then Ok (firstn (Z.to_nat (hi - lo)) (skipn (Z.to_nat lo) s))
  else Panic.

(** [s[lo:]] *)
Definition slice_from {A : Type} (s : list A) (lo : Z) : result (list A) :=
  slice s lo (len s).

(** [s[:hi]] *)
Definition slice_to {A : Type} (s : list A) (hi : Z) : result (list A) :=
  slice s 0 hi.

Fixpoint set_nth {A : Type} (l : list A) (n : nat) (x : A) : list A :=
  match l, n with
  | [], _ => []
  | _ :: t, O => x :: t
  | h :: t, S n' => h :: set_nth t n' x
  end.

(** [s[i] = x]: panics outside [0 <= i < len(s)]. *)
Definition store {A : Type} (s : list A) (i : Z) (x : A) : result (list A) :=
  if (0 <=? i) && (i <? len s) then Ok (set_nth s (Z.to_nat i) x) else Panic.

(** [make([]byte, n)] *)
Definition make (n : Z) : list byte := repeat x00 (Z.to_nat n).

Definition uint64_mod : Z := 2 ^ 64.

Definition is_uint64 (v : Z) : Prop := 0 <= v < uint64_mod.

Definition byte_to_Z (b : byte) : Z := Z.of_N (Byte.to_N b).

(** The conversion [byte(v)]: the low eight bits. *)
Definition byte_of_Z (v : Z) : byte :=
  match Byte.of_N (Z.to_N (v mod 256)) with
  | Some b => b
  | None => x00
  end.

(* ================================================================= *)
(** ** Iterating a string by runes ([for _, c := range s]) *)

Definition RuneError : Z := 0xFFFD.
Definition RuneSelf : Z := 0x80.

Definition is_cont (b : byte) : bool :=
  (0x80 <=? byte_to_Z b) && (byte_to_Z b <=? 0xBF).

(** The run-time's rune decoder, called on a string whose first byte is not
    below [RuneSelf]: the rune and the number of bytes it takes.  A malformed
    sequence gives [RuneError] and one byte. *)
Definition decoderune (s : gostring) : Z * nat :=
  match s with
  | [] => (RuneError, 1%nat)
  | s0 :: rest =>
      let z0 := byte_to_Z s0 in
      if (0xC0 <=? z0) && (z0 <? 0xE0) then
        match rest with
        | s1 :: _ =>
            let r := Z.lor (Z.shiftl (Z.land z0 0x1F) 6)
                           (Z.land (byte_to_Z s1) 0x3F) in
            if is_cont s1 && (0x7F <? r) then (r, 2%nat) else (RuneError, 1%nat)
        | _ => (RuneError, 1%nat)
        end
      else if (0xE0 <=? z0) && (z0 <? 0xF0) then
        match rest with
        | s1 :: s2 :: _ =>
            let r := Z.lor (Z.lor (Z.shiftl (Z.land z0 0x0F) 12)
                                  (Z.shiftl (Z.land (byte_to_Z s1) 0x3F) 6))
                           (Z.land (byte_to_Z s2) 0x3F) in
            if is_cont s1 && is_cont s2 && (0x7FF <? r)
               && negb ((0xD800 <=? r) && (r <=? 0xDFFF))
            then (r, 3%nat) else (RuneError, 1%nat)
        | _ => (RuneError, 1%nat)
        end
      else if (0xF0 <=? z0) && (z0 <? 0xF8) then
        match rest with
        | s1 :: s2 :: s3 :: _ =>
            let r :=
              Z.lor (Z.lor (Z.lor (Z.shiftl (Z.land z0 0x07) 18)
                                  (Z.shiftl (Z.land (byte_to_Z s1) 0x3F) 12))
                           (Z.shiftl (Z.land (byte_to_Z s2) 0x3F) 6))
                    (Z.land (byte_to_Z s3) 0x3F) in
            if is_cont s1 && is_cont s2 && is_cont s3
               && (0xFFFF <? r) && (r <=? 0x10FFFF)
            then (r, 4%nat) else (RuneError, 1%nat)
        | _ => (RuneError, 1%nat)
        end
      else (RuneError, 1%nat)
  end.

(** The runes [range s] yields, in order.  [skip] counts the bytes of the
    current rune still to step over. *)
Fixpoint range_runes (skip : nat) (s : gostring) : list Z :=
  match s with
  | [] => []
  | b :: t =>
      match skip with
      | S k => range_runes k t
      | O =>
          if byte_to_Z b <? RuneSelf then byte_to_Z b :: range_runes O t
          else let '(r, sz) := decoderune s in r :: range_runes (sz - 1) t
      end
  end.

(** [lo <= c && c <= hi] on bytes. *)
Definition between (lo c hi : byte) : bool :=
  (byte_to_Z lo <=? byte_to_Z c) && (byte_to_Z c <=? byte_to_Z hi).

(* ================================================================= *)
(** ** package strings *)

Module strings.

(** [strings.IndexByte(s, c)]: index of the first [c] in [s], or [-1].
    [IndexByte_from i] scans the bytes from position [i] on. *)
Fixpoint IndexByte_from (i : Z) (s : gostring) (c : byte) : Z :=
  match s with
  | [] => -1
  | h :: t => if Byte.eqb h c then i else IndexByte_from (i + 1) t c
  end.

Definition IndexByte (s : gostring) (c : byte) : Z := IndexByte_from 0 s c.

(** [strings.HasPrefix(s, prefix)] *)
Fixpoint HasPrefix (s prefix : gostring) : bool :=
  match prefix, s with
  | [], _ => true
  | _ :: _, [] => false
  | p :: prefix', c :: s' => Byte.eqb c p && HasPrefix s' prefix'
  end.

(** [strings.ReplaceAll(s, old, new)] for a non-empty [old]: scanning left
    to right, every non-overlapping occurrence of [old] is replaced by
    [new].  [skip] counts the bytes of a matched occurrence still to drop. *)
Fixpoint ReplaceAll_from (skip : nat) (s old new : gostring) : gostring :=
  match s with
  | [] => []
  | c :: t =>
      match skip with
      | S k => ReplaceAll_from k t old new
      | O =>
          if HasPrefix s old
          then new ++ ReplaceAll_from (length old - 1) t old new
          else c :: ReplaceAll_from O t old new
      end
  end.

Definition ReplaceAll (s old new : gostring) : gostring :=
  ReplaceAll_from O s old new.

(** [strings.ContainsRune(s, r)], that is [IndexRune(s, r) >= 0]: a rune
    below [RuneSelf] is looked up as a byte, any other one among the runes
    of [s]. *)
Definition ContainsRune (s : gostring) (r : Z) : bool :=
  if (0 <=? r) && (r <? RuneSelf) then 0 <=? IndexByte s (byte_of_Z r)
  else existsb (Z.eqb r) (range_runes O s).

End strings.

(* ================================================================= *)
(** ** package encoding/hex *)

Module hex.

Definition hextable : gostring := str "0123456789abcdef".

(** [hex.EncodeToString(src)]: two lower-case digits per byte. *)
Fixpoint EncodeToString (src : list byte) : gostring :=
  match src with
  | [] => []
  | v :: t =>
      nth (Z.to_nat (Z.shiftr (byte_to_Z v) 4)) hextable x00
      :: nth (Z.to_nat (Z.land (byte_to_Z v) 0x0f)) hextable x00
      :: EncodeToString t
  end.

(** The value of a hexadecimal digit, of either case. *)
Definition fromHexChar (c : byte) : option Z :=
  if between "0" c "9" then Some (byte_to_Z c - byte_to_Z "0")
  else if between "a" c "f" then Some (byte_to_Z c - byte_to_Z "a" + 10)
  else if between "A" c "F" then Some (byte_to_Z c - byte_to_Z "A" + 10)
  else None.

(** [hex.DecodeString(s)]: pairs of digits from the left; the first invalid
    byte is reported before an odd length is.  The bytes decoded before an
    error are not kept: [FromUUID] drops them. *)
Fixpoint DecodeString (src : gostring) : result (list byte) :=
  match src with
  | [] => Ok []
  | [p] =>
      match fromHexChar p with
      | None => Err (HexInvalidByteError p)
      | Some _ => Err HexErrLength
      end
  | p :: q :: t =>
      match fromHexChar p with
      | None => Err (HexInvalidByteError p)
      | Some a =>
          match fromHexChar q with
          | None => Err (HexInvalidByteError q)
          | Some b =>
              rest <- DecodeString t ;;
              Ok (byte_of_Z (Z.lor (Z.shiftl a 4) b) :: rest)
          end
      end
  end.

End hex.

(* ================================================================= *)
(** ** package encoding/binary, big endian *)

Module binary.
Module BigEndian.

(** [binary.BigEndian.Uint64(b)] *)
Definition Uint64 (b : list byte) : result Z :=
  _ <- index b 7 ;;
  b7 <- index b 7 ;; b6 <- index b 6 ;; b5 <- index b 5 ;; b4 <- index b 4 ;;
  b3 <- index b 3 ;; b2 <- index b 2 ;; b1 <- index b 1 ;; b0 <- index b 0 ;;
  Ok (Z.lor (Z.lor (Z.lor (Z.lor (Z.lor (Z.lor (Z.lor
        (byte_to_Z b7)
        (Z.shiftl (byte_to_Z b6) 8))
        (Z.shiftl (byte_to_Z b5) 16))
        (Z.shiftl (byte_to_Z b4) 24))
        (Z.shiftl (byte_to_Z b3) 32))
        (Z.shiftl (byte_to_Z b2) 40))
        (Z.shiftl (byte_to_Z b1) 48))
        (Z.shiftl (byte_to_Z b0) 56)).

(** [binary.BigEndian.PutUint64(b[lo:hi], v)]: the sub-slice shares the
    array of [b], so the result is [b] after the eight writes. *)
Definition PutUint64 (b : list byte) (lo hi : Z) (v : Z) : result (list byte) :=
  _ <- slice b lo hi ;;
  if hi - lo <=? 7 then Panic
  else
    b <- store b (lo + 0) (byte_of_Z (Z.shiftr v 56)) ;;
    b <- store b (lo + 1) (byte_of_Z (Z.shiftr v 48)) ;;
    b <- store b (lo + 2) (byte_of_Z (Z.shiftr v 40)) ;;
    b <- store b (lo + 3) (byte_of_Z (Z.shiftr v 32)) ;;
    b <- store b (lo + 4) (byte_of_Z (Z.shiftr v 24)) ;;
    b <- store b (lo + 5) (byte_of_Z (Z.shiftr v 16)) ;;
    b <- store b (lo + 6) (byte_of_Z (Z.shiftr v 8)) ;;
    store b (lo + 7) (byte_of_Z v).

End BigEndian.
End binary.

(* ================================================================= *)
(** ** package kuid *)

Record KUID : Type := mkKUID {
  msb : Z;  (* most significant bits, a uint64 *)
  lsb : Z   (* least significant bits, a uint64 *)
}.

Definition ptr (A : Type) : Type := option A.

Definition base62Chars : gostring :=
  str "0123456789ABCDEFGHIJKLMNOPQRSTUVWXYZabcdefghijklmnopqrstuvwxyz".
Definition base : Z := len base62Chars.
Definition size : Z := 11.

Definition FromBytes (b : list byte) : result KUID :=
  if negb (len b =? 16)
  then Err (ErrorsNew "byte slice must be exactly 16 bytes")
  else
    hi <- slice b 0 8 ;;
    msb <- binary.BigEndian.Uint64 hi ;;
    lo <- slice b 8 16 ;;
    lsb <- binary.BigEndian.Uint64 lo ;;
    Ok (mkKUID msb lsb).

Definition hyphen : byte := "-"%byte.

Definition FromUUID (uuid : gostring) : result KUID :=
  (* Validate UUID format with hyphens *)
  if negb (strings.HasPrefix uuid (str "")) && negb (len uuid =? 36)
  then Err ErrInvalidUUID
  else
    (* Check hyphen positions *)
    c8 <- index uuid 8 ;;
    if negb (Byte.eqb c8 hyphen) then Err ErrInvalidUUID else
    c13 <- index uuid 13 ;;
    if negb (Byte.eqb c13 hyphen) then Err ErrInvalidUUID else
    c18 <- index uuid 18 ;;
    if negb (Byte.eqb c18 hyphen) then Err ErrInvalidUUID else
    c23 <- index uuid 23 ;;
    if negb (Byte.eqb c23 hyphen) then Err ErrInvalidUUID else
    (* Remove hyphens and validate hex *)
    let clean := strings.ReplaceAll uuid (str "-") (str "") in
    if negb (len clean =? 32) then Err ErrInvalidUUID else
    (* Validate hex characters *)
    if existsb
         (fun c => negb (strings.ContainsRune (str "0123456789abcdefABCDEF") c))
         (range_runes O clean)
    then Err ErrInvalidUUID
    else
      (* Decode hex string to bytes *)
      match hex.DecodeString clean with
      | Ok bytes => FromBytes bytes
      | Err _ => Err ErrInvalidUUID
      | Panic => Panic
      end.

(** The loop of [encodeLong], [n] iterations left: [i = n - 1] down to 0. *)
Fixpoint encodeLong_loop (n : nat) (bytes : list byte) (value : Z)
  : result (list byte) :=
  match n with
  | O => Ok bytes
  | S i =>
      c <- index base62Chars (value mod base) ;;
      bytes <- store bytes (Z.of_nat i) c ;;
      encodeLong_loop i bytes (value / base)
  end.

Definition encodeLong (value : Z) : result gostring :=
  encodeLong_loop (Z.to_nat size) (make size) value.

(** The loop of [decodeLong], [n = len(s) - i] iterations left. *)
Fixpoint decodeLong_loop (n : nat) (s : gostring) (i : Z) (value : Z)
  : result Z :=
  match n with
  | O => Ok value
  | S n' =>
      c <- index s i ;;
      let digit := strings.IndexByte base62Chars c in
      if digit <? 0 then Err ErrInvalidChar
      else decodeLong_loop n' s (i + 1) ((value * base + digit) mod uint64_mod)
  end.

Definition decodeLong (s : gostring) : result Z :=
  if negb (len s =? size) then Err ErrInvalidLength
  else decodeLong_loop (length s) s 0 0.

Definition String (k : KUID) : result gostring :=
  hi <- encodeLong (msb k) ;;
  lo <- encodeLong (lsb k) ;;
  Ok (hi ++ lo).

Definition FromString (s : gostring) : result KUID :=
  if negb (len s =? size * 2) then Err ErrInvalidLength
  else
    hi <- slice_to s size ;;
    msb <- decodeLong hi ;;
    lo <- slice_from s size ;;
    lsb <- decodeLong lo ;;
    Ok (mkKUID msb lsb).

Definition deref {A : Type} (p : ptr A) : result A :=
  match p with
  | Some a => Ok a
  | None => Panic
  end.

Definition Bytes (k : ptr KUID) : result (list byte) :=
  let b := make 16 in
  kv <- deref k ;;
  b <- binary.BigEndian.PutUint64 b 0 8 (msb kv) ;;
  b <- binary.BigEndian.PutUint64 b 8 16 (lsb kv) ;;
  Ok b.

Definition ToUUID (k : ptr KUID) : result gostring :=
  bytes <- Bytes k ;;
  let uuid := hex.EncodeToString bytes in
  (* Insert hyphens in UUID format: 8-4-4-4-12 *)
  g1 <- slice uuid 0 8 ;;
  g2 <- slice uuid 8 12 ;;
  g3 <- slice uuid 12 16 ;;
  g4 <- slice uuid 16 20 ;;
  g5 <- slice_from uuid 20 ;;
  Ok (g1 ++ str "-" ++ g2 ++ str "-" ++ g3 ++ str "-" ++ g4 ++ str "-" ++ g5).

Definition Equal (k other : ptr KUID) : result bool :=
  match other with
  | None => Ok false
  | Some o =>
      kv <- deref k ;;
      Ok ((msb kv =? msb o) && (lsb kv =? lsb o))
  end.

(* ================================================================= *)
(** ** Reference notions used in the statements

    What follows is not code of the package: it names the notions the
    properties are stated with, and a few intermediate forms of the loops
    they are proved through. *)

(** Membership in the base-62 alphabet. *)
Definition in_alphabet (c : byte) : bool :=
  0 <=? strings.IndexByte base62Chars c.

(** The number an alphabet string denotes in base 62 (unbounded). *)
Fixpoint base62_value (s : gostring) : Z :=
  match s with
  | [] => 0
  | c :: t => strings.IndexByte base62Chars c * base ^ len t + base62_value t
  end.

(** The [n] least significant base-62 digits of [v], most significant first. *)
Fixpoint digits (n : nat) (v : Z) : gostring :=
  match n with
  | O => []
  | S n' =>
      digits n' (v / base) ++ [nth (Z.to_nat (v mod base)) base62Chars x00]
  end.

(** [decodeLong]'s accumulation, as a recursion on the characters left. *)
Fixpoint decode_acc (s : gostring) (value : Z) : result Z :=
  match s with
  | [] => Ok value
  | c :: t =>
      let digit := strings.IndexByte base62Chars c in
      if digit <? 0 then Err ErrInvalidChar
      else decode_acc t ((value * base + digit) mod uint64_mod)
  end.

(** The number a sequence of bytes denotes, most significant byte first. *)
Definition be_value (l : list byte) : Z :=
  fold_left (fun acc b => acc * 256 + byte_to_Z b) l 0.

(** The expression [binary.BigEndian.Uint64] returns on the eight bytes
    [b0 .. b7]. *)
Definition be_word (b0 b1 b2 b3 b4 b5 b6 b7 : byte) : Z :=
  Z.lor (Z.lor (Z.lor (Z.lor (Z.lor (Z.lor (Z.lor
    (byte_to_Z b7)
    (Z.shiftl (byte_to_Z b6) 8))
    (Z.shiftl (byte_to_Z b5) 16))
    (Z.shiftl (byte_to_Z b4) 24))
    (Z.shiftl (byte_to_Z b3) 32))
    (Z.shiftl (byte_to_Z b2) 40))
    (Z.shiftl (byte_to_Z b1) 48))
    (Z.shiftl (byte_to_Z b0) 56).

(** Both halves of an identifier are 64-bit values. *)
Definition KUID_wf (k : KUID) : Prop := is_uint64 (msb k) /\ is_uint64 (lsb k).

(** A hexadecimal digit of either case: membership in the set [FromUUID]
    tests every rune of the cleaned string against. *)
Definition isHexDigit (c : byte) : bool :=
  0 <=? strings.IndexByte (str "0123456789abcdefABCDEF") c.

(** [strings.ToLower] on a string of ASCII bytes. *)
Definition toLower (c : byte) : byte :=
  if between "A" c "Z" then byte_of_Z (byte_to_Z c + 32) else c.

Definition ToLower (s : gostring) : gostring := map toLower s.

Definition is_lower (s : gostring) : bool :=
  forallb (fun c => negb (between "A" c "Z")) s.

Definition hyphen_at (i : nat) : bool :=
  Nat.eqb i 8 || Nat.eqb i 13 || Nat.eqb i 18 || Nat.eqb i 23.

(** From position [i] on: a hyphen at each of the positions 8, 13, 18 and
    23, a hexadecimal digit elsewhere. *)
Fixpoint uuid_chars_ok (i : nat) (u : gostring) : bool :=
  match u with
  | [] => true
  | c :: t =>
      (if hyphen_at i then Byte.eqb c hyphen else isHexDigit c)
      && uuid_chars_ok (S i) t
  end.

(** Well-formed UUID text: 36 characters, hyphenated 8-4-4-4-12. *)
Definition valid_uuid_text (u : gostring) : bool :=
  Nat.eqb (length u) 36 && uuid_chars_ok 0 u.

Definition not_hyphen (c : byte) : bool := negb (Byte.eqb c hyphen).

(** The second half of [ToUUID]: hyphens inserted after 8, 12, 16 and 20
    characters. *)
Definition hyphenate (uuid : gostring) : result gostring :=
  g1 <- slice uuid 0 8 ;;
  g2 <- slice uuid 8 12 ;;
  g3 <- slice uuid 12 16 ;;
  g4 <- slice uuid 16 20 ;;
  g5 <- slice_from uuid 20 ;;
  Ok (g1 ++ str "-" ++ g2 ++ str "-" ++ g3 ++ str "-" ++ g4 ++ str "-" ++ g5).

(** The body of [TestKnownValues]: UUID text to identifier, to compact
    text and back, compared with [Equal], and rendered as UUID text. *)
Definition known_value_scenario (uuid : gostring) : result (bool * gostring) :=
  kuid <- FromUUID uuid ;;
  s <- String kuid ;;
  decoded <- FromString s ;;
  same <- Equal (Some kuid) (Some decoded) ;;
  uuidStr <- ToUUID (Some decoded) ;;
  Ok (same, uuidStr).

(** [NewKUID], with the entropy source as a parameter: [Read buf] is what
    [rand.Read(buf[:])] leaves in the 16-byte array [buf] and the error it
    returns, [None] being [nil]. *)
Definition NewKUID (Read : list byte -> list byte * option error)
  : result KUID :=
  let buf := make 16 in
  let '(buf, err) := Read buf in
  match err with
  | Some e => Err e
  | None =>
      hi <- slice buf 0 8 ;;
      msb <- binary.BigEndian.Uint64 hi ;;
      lo <- slice buf 8 16 ;;
      lsb <- binary.BigEndian.Uint64 lo ;;
      Ok (mkKUID msb lsb)
  end.

(** The comparison [a < b] of two Go strings: byte by byte, a proper prefix
    being smaller. *)
Fixpoint string_lt (a b : gostring) : bool :=
  match a, b with
  | _, [] => false
  | [], _ :: _ => true
  | x :: a', y :: b' =>
      if byte_to_Z x <? byte_to_Z y then true
      else if byte_to_Z y <? byte_to_Z x then false
      else string_lt a' b'
  end.

(** An 11-character string is canonical when the number it denotes fits
    64 bits. *)
Definition canonical (s : gostring) : Prop := base62_value s < 2 ^ 64.

(* ================================================================= *)
(** ** Indexing, slicing and storing *)

Section Slices.
Context {A : Type}.
Implicit Types (s p t : list A) (i : Z) (x : A).

Lemma len_nonneg s : 0 <= len s.
Proof. unfold len; lia. Qed.

Lemma len_app s t : len (s ++ t) = len s + len t.
Proof. unfold len; rewrite length_app; lia. Qed.

Lemma len_cons x s : len (x :: s) = len s + 1.
Proof. unfold len; simpl length; lia. Qed.

Lemma index_app_here p x t : index (p ++ x :: t) (len p) = Ok x.
Proof.
  unfold index, len.
  destruct (Z.ltb_spec (Z.of_nat (length p)) 0) as [Hneg | _]; [lia |].
  rewrite Nat2Z.id, nth_error_app2 by lia.
  now rewrite Nat.sub_diag.
Qed.

Lemma index_in_range s i d :
  0 <= i < len s -> index s i = Ok (nth (Z.to_nat i) s d).
Proof.
  unfold index, len; intros Hi.
  destruct (Z.ltb_spec i 0) as [Hneg | _]; [lia |].
  destruct (nth_error s (Z.to_nat i)) as [c |] eqn:E.
  - now rewrite (nth_error_nth _ _ d E).
  - apply nth_error_None in E; lia.
Qed.

Lemma index_out_of_range s i : len s <= i -> index s i = Panic.
Proof.
  unfold index, len; intros Hi.
  destruct (Z.ltb_spec i 0) as [_ | _]; [reflexivity |].
  destruct (nth_error s (Z.to_nat i)) eqn:E; [| reflexivity].
  assert (nth_error s (Z.to_nat i) <> None) as Hn by congruence.
  apply nth_error_Some in Hn; lia.
Qed.

Lemma length_set_nth s n x : length (set_nth s n x) = length s.
Proof.
  revert n; induction s as [| h t IH]; intros [| n]; simpl; auto.
Qed.

Lemma skipn_set_nth s n x :
  (n < length s)%nat -> skipn n (set_nth s n x) = x :: skipn (S n) s.
Proof.
  revert n; induction s as [| h t IH]; intros [| n] Hn; simpl in *;
    try lia; auto.
  apply IH; lia.
Qed.

Lemma store_in_range s i x :
  0 <= i < len s -> store s i x = Ok (set_nth s (Z.to_nat i) x).
Proof.
  unfold store; intros Hi.
  destruct (Z.leb_spec 0 i); [| lia].
  destruct (Z.ltb_spec i (len s)); [reflexivity | lia].
Qed.

Lemma slice_to_firstn s n :
  0 <= n <= len s -> slice_to s n = Ok (firstn (Z.to_nat n) s).
Proof.
  unfold slice_to, slice; intros Hn.
  destruct (Z.leb_spec 0 n); [| lia].
  destruct (Z.leb_spec n (len s)); [| lia].
  simpl. now rewrite Z.sub_0_r.
Qed.

Lemma slice_from_skipn s n :
  0 <= n <= len s -> slice_from s n = Ok (skipn (Z.to_nat n) s).
Proof.
  unfold slice_from, slice, len; intros Hn.
  destruct (Z.leb_spec 0 n); [| lia].
  destruct (Z.leb_spec n (Z.of_nat (length s))); [| unfold len in Hn; lia].
  rewrite Z.leb_refl; simpl.
  rewrite firstn_all2; [reflexivity |].
  rewrite length_skipn; lia.
Qed.
End Slices.

(* ================================================================= *)
(** ** The alphabet *)

Lemma base_eq : base = 62.
Proof. reflexivity. Qed.

Lemma IndexByte_from_shift i s c :
  0 <= i ->
  strings.IndexByte_from i s c
  = if strings.IndexByte_from 0 s c <? 0 then -1
    else strings.IndexByte_from 0 s c + i.
Proof.
  revert i; induction s as [| h t IH]; intros i Hi;
    cbn [strings.IndexByte_from].
  - reflexivity.
  - destruct (Byte.eqb h c); [reflexivity |].
    rewrite (IH (i + 1)), (IH (0 + 1)) by lia.
    destruct (Z.ltb_spec (strings.IndexByte_from 0 t c) 0) as [Hlt | Hge].
    + reflexivity.
    + destruct (Z.ltb_spec (strings.IndexByte_from 0 t c + (0 + 1)) 0); lia.
Qed.

Lemma IndexByte_nil c : strings.IndexByte [] c = -1.
Proof. reflexivity. Qed.

Lemma IndexByte_cons h t c :
  strings.IndexByte (h :: t) c
  = if Byte.eqb h c then 0
    else if strings.IndexByte t c <? 0 then -1 else strings.IndexByte t c + 1.
Proof.
  unfold strings.IndexByte; cbn [strings.IndexByte_from].
  destruct (Byte.eqb h c); [reflexivity |].
  now rewrite IndexByte_from_shift by lia.
Qed.

Lemma IndexByte_lt s c : -1 <= strings.IndexByte s c < len s.
Proof.
  induction s as [| h t IH].
  - rewrite IndexByte_nil. unfold len; simpl; lia.
  - rewrite IndexByte_cons, len_cons. destruct (Byte.eqb h c).
    + pose proof (len_nonneg t); lia.
    + destruct (Z.ltb_spec (strings.IndexByte t c) 0); lia.
Qed.

Lemma IndexByte_nth s c :
  0 <= strings.IndexByte s c ->
  nth (Z.to_nat (strings.IndexByte s c)) s x00 = c.
Proof.
  induction s as [| h t IH].
  - rewrite IndexByte_nil; lia.
  - rewrite IndexByte_cons. destruct (Byte.eqb h c) eqn:E.
    + intros _. now apply Byte.byte_dec_bl in E.
    + destruct (Z.ltb_spec (strings.IndexByte t c) 0); [lia |]. intros _.
      replace (Z.to_nat (strings.IndexByte t c + 1))
        with (S (Z.to_nat (strings.IndexByte t c))) by lia.
      cbn [nth]. auto.
Qed.

(** The alphabet has no repeated symbol: a digit's symbol is found at the
    digit's own index. *)
Lemma IndexByte_base62Chars_nth d :
  0 <= d < base ->
  strings.IndexByte base62Chars (nth (Z.to_nat d) base62Chars x00) = d.
Proof.
  rewrite base_eq; intros Hd.
  assert (forall n, (n < 62)%nat ->
            strings.IndexByte base62Chars (nth n base62Chars x00) = Z.of_nat n)
    as Hall.
  { intros n Hn.
    do 62 (destruct n as [| n]; [vm_compute; reflexivity |]). lia. }
  rewrite Hall; lia.
Qed.

Lemma in_alphabet_digit d :
  0 <= d < base -> in_alphabet (nth (Z.to_nat d) base62Chars x00) = true.
Proof.
  intros Hd; unfold in_alphabet.
  rewrite IndexByte_base62Chars_nth by assumption. apply Z.leb_le; lia.
Qed.

Lemma index_base62Chars d :
  0 <= d < base -> index base62Chars d = Ok (nth (Z.to_nat d) base62Chars x00).
Proof. intros Hd; apply index_in_range; exact Hd. Qed.

Lemma mod_base_range v : 0 <= v mod base < base.
Proof. apply Z.mod_pos_bound; rewrite base_eq; lia. Qed.

(* ================================================================= *)
(** ** encodeLong *)

Lemma length_digits n v : length (digits n v) = n.
Proof.
  revert v; induction n as [| n IH]; intros v; simpl; [reflexivity |].
  rewrite length_app, IH; simpl; lia.
Qed.

Lemma encodeLong_loop_digits n bytes v :
  (n <= length bytes)%nat ->
  encodeLong_loop n bytes v = Ok (digits n v ++ skipn n bytes).
Proof.
  revert bytes v; induction n as [| i IH]; intros bytes v Hn;
    cbn [encodeLong_loop digits].
  - reflexivity.
  - rewrite index_base62Chars by apply mod_base_range. cbn [bind].
    rewrite store_in_range by (unfold len; lia). cbn [bind].
    rewrite IH by (rewrite length_set_nth; lia).
    rewrite Nat2Z.id, skipn_set_nth by lia.
    now rewrite <- app_assoc.
Qed.

Lemma encodeLong_digits v : encodeLong v = Ok (digits 11 v).
Proof.
  unfold encodeLong.
  rewrite encodeLong_loop_digits by (vm_compute; lia).
  change (skipn (Z.to_nat size) (make size)) with (@nil byte).
  now rewrite app_nil_r.
Qed.

Lemma forallb_single {A : Type} (f : A -> bool) (x : A) :
  forallb f [x] = f x.
Proof. simpl. apply andb_true_r. Qed.

Lemma digits_in_alphabet n v : forallb in_alphabet (digits n v) = true.
Proof.
  revert v; induction n as [| n IH]; intros v; cbn [digits]; [reflexivity |].
  rewrite forallb_app, IH, forallb_single.
  apply in_alphabet_digit, mod_base_range.
Qed.

Lemma base62_value_snoc s c :
  base62_value (s ++ [c])
  = base62_value s * base + strings.IndexByte base62Chars c.
Proof.
  induction s as [| h t IH]; cbn [app base62_value].
  - change (len (@nil byte)) with 0. rewrite Z.pow_0_r; lia.
  - rewrite IH, len_app. change (len [c]) with 1.
    rewrite Z.pow_add_r by (try apply len_nonneg; lia).
    rewrite Z.pow_1_r.
    generalize (strings.IndexByte base62Chars h)
               (strings.IndexByte base62Chars c)
               (base62_value t) (base ^ len t) base.
    intros; ring.
Qed.

Lemma base62_value_digits n v :
  0 <= v -> base62_value (digits n v) = v mod base ^ Z.of_nat n.
Proof.
  revert v; induction n as [| n IH]; intros v Hv.
  - cbn [digits base62_value]. change (base ^ Z.of_nat 0) with 1.
    now rewrite Z.mod_1_r.
  - cbn [digits]. rewrite base62_value_snoc.
    rewrite IndexByte_base62Chars_nth by apply mod_base_range.
    rewrite IH by (apply Z.div_pos; rewrite ?base_eq; lia).
    rewrite Nat2Z.inj_succ, Z.pow_succ_r by lia.
    rewrite Z.rem_mul_r
      by (rewrite base_eq; first [lia | apply Z.pow_pos_nonneg; lia]).
    rewrite base_eq; lia.
Qed.

Lemma digits_small n k v :
  0 <= v < base ^ Z.of_nat k -> (k <= n)%nat ->
  firstn (n - k) (digits n v) = repeat "0"%byte (n - k).
Proof.
  revert k v; induction n as [| n IH]; intros k v Hv Hk.
  - reflexivity.
  - destruct (Nat.eq_dec k (S n)) as [-> | Hne].
    + now rewrite Nat.sub_diag.
    + cbn [digits].
      replace (S n - k)%nat with (S (n - k)) by lia.
      rewrite firstn_app, length_digits.
      replace (S (n - k) - n)%nat with (1 - k)%nat by lia.
      destruct k as [| k].
      * (* v = 0 *)
        change (base ^ Z.of_nat 0) with 1 in Hv.
        assert (v = 0) as -> by lia.
        rewrite firstn_all2 by (rewrite length_digits; lia).
        change (0 / base) with 0.
        specialize (IH O 0 ltac:(change (base ^ Z.of_nat 0) with 1; lia)
                           ltac:(lia)).
        rewrite Nat.sub_0_r in IH.
        rewrite firstn_all2 in IH by (rewrite length_digits; lia).
        rewrite IH. simpl firstn.
        change (nth (Z.to_nat (0 mod base)) base62Chars x00) with "0"%byte.
        rewrite Nat.sub_0_r.
        now rewrite <- repeat_cons.
      * replace (1 - S k)%nat with O by lia. simpl firstn at 2.
        rewrite app_nil_r.
        assert (0 <= v / base < base ^ Z.of_nat k) as Hq.
        { rewrite Nat2Z.inj_succ, Z.pow_succ_r in Hv by lia.
          rewrite base_eq in *. split.
          - apply Z.div_pos; lia.
          - apply Z.div_lt_upper_bound; lia. }
        specialize (IH k (v / base) Hq ltac:(lia)).
        replace (S (n - S k)) with (n - k)%nat by lia.
        exact IH.
Qed.

(* ================================================================= *)
(** ** decodeLong *)

Lemma decodeLong_loop_acc p t value :
  decodeLong_loop (length t) (p ++ t) (len p) value = decode_acc t value.
Proof.
  revert p value; induction t as [| c t IH]; intros p value;
    cbn [length decodeLong_loop decode_acc].
  - reflexivity.
  - rewrite index_app_here. cbn [bind].
    destruct (strings.IndexByte base62Chars c <? 0); [reflexivity |].
    replace (p ++ c :: t) with ((p ++ [c]) ++ t) by now rewrite <- app_assoc.
    replace (len p + 1) with (len (p ++ [c])) by now rewrite len_app.
    apply IH.
Qed.

Lemma decodeLong_acc s :
  len s = size -> decodeLong s = decode_acc s 0.
Proof.
  intros Hs; unfold decodeLong.
  rewrite Hs, Z.eqb_refl. simpl negb. cbv iota.
  exact (decodeLong_loop_acc [] s 0).
Qed.

Lemma wrap_step a b d m :
  m <> 0 -> ((a mod m) * b + d) mod m = (a * b + d) mod m.
Proof.
  intros Hm.
  rewrite <- (Z.add_mod_idemp_l (a mod m * b)) by assumption.
  rewrite Z.mul_mod_idemp_l by assumption.
  now rewrite Z.add_mod_idemp_l by assumption.
Qed.

Lemma decode_acc_value s value :
  forallb in_alphabet s = true ->
  decode_acc s (value mod uint64_mod)
  = Ok ((value * base ^ len s + base62_value s) mod uint64_mod).
Proof.
  revert value; induction s as [| c t IH]; intros value Hs;
    cbn [decode_acc base62_value].
  - change (len (@nil byte)) with 0.
    now rewrite Z.pow_0_r, Z.add_0_r, Z.mul_1_r.
  - cbn [forallb] in Hs. apply andb_prop in Hs as [Hc Ht].
    unfold in_alphabet in Hc. apply Z.leb_le in Hc.
    destruct (Z.ltb_spec (strings.IndexByte base62Chars c) 0); [lia |].
    rewrite wrap_step by (unfold uint64_mod; lia).
    rewrite IH by assumption. f_equal. f_equal.
    rewrite len_cons, Z.pow_add_r, Z.pow_1_r by (try apply len_nonneg; lia).
    generalize (strings.IndexByte base62Chars c) (base62_value t)
               (base ^ len t) base.
    intros; ring.
Qed.

Lemma decode_acc_invalid s value :
  forallb in_alphabet s = false -> decode_acc s value = Err ErrInvalidChar.
Proof.
  revert value; induction s as [| c t IH]; intros value Hs;
    cbn [decode_acc forallb] in *.
  - discriminate.
  - unfold in_alphabet in Hs at 1.
    destruct (Z.ltb_spec (strings.IndexByte base62Chars c) 0) as [Hlt | Hge];
      [reflexivity |].
    apply IH.
    destruct (Z.leb_spec 0 (strings.IndexByte base62Chars c)); [exact Hs | lia].
Qed.

Lemma decodeLong_value s :
  len s = size -> forallb in_alphabet s = true ->
  decodeLong s = Ok (base62_value s mod uint64_mod).
Proof.
  intros Hlen Hs. rewrite decodeLong_acc by assumption.
  change 0 with (0 mod uint64_mod) at 1.
  rewrite decode_acc_value by assumption. now rewrite Z.mul_0_l.
Qed.

Lemma decodeLong_invalid s :
  len s = size -> forallb in_alphabet s = false ->
  decodeLong s = Err ErrInvalidChar.
Proof.
  intros Hlen Hs. rewrite decodeLong_acc by assumption.
  now apply decode_acc_invalid.
Qed.

Lemma decodeLong_digits v :
  is_uint64 v -> decodeLong (digits 11 v) = Ok v.
Proof.
  intros [Hlo Hhi]. unfold uint64_mod in Hhi.
  rewrite decodeLong_value.
  - rewrite base62_value_digits by assumption. f_equal.
    rewrite base_eq.
    rewrite (Z.mod_small v)
      by (change (62 ^ Z.of_nat 11) with 52036560683837093888; lia).
    apply Z.mod_small. unfold uint64_mod; lia.
  - unfold len. now rewrite length_digits.
  - apply digits_in_alphabet.
Qed.

(* ================================================================= *)
(** ** Bytes and big-endian words *)

Lemma byte_to_Z_range b : 0 <= byte_to_Z b < 256.
Proof.
  unfold byte_to_Z. pose proof (Byte.to_N_bounded b). lia.
Qed.

Lemma byte_of_Z_mod z b : z mod 256 = byte_to_Z b -> byte_of_Z z = b.
Proof.
  unfold byte_of_Z, byte_to_Z; intros ->.
  now rewrite N2Z.id, Byte.of_to_N.
Qed.

Lemma byte_of_to_Z b : byte_of_Z (byte_to_Z b) = b.
Proof.
  apply byte_of_Z_mod, Z.mod_small, byte_to_Z_range.
Qed.

Lemma byte_to_of_Z z : byte_to_Z (byte_of_Z z) = z mod 256.
Proof.
  unfold byte_of_Z, byte_to_Z.
  assert (0 <= z mod 256 < 256) as Hr by (apply Z.mod_pos_bound; lia).
  destruct (Byte.of_N (Z.to_N (z mod 256))) as [b |] eqn:E.
  - apply Byte.to_of_N in E. rewrite E. lia.
  - apply Byte.of_N_None_iff in E. lia.
Qed.

Lemma land_shiftl_disjoint a b n :
  0 <= n -> 0 <= a < 2 ^ n -> Z.land a (Z.shiftl b n) = 0.
Proof.
  intros Hn Ha. apply Z.bits_inj'. intros m Hm.
  rewrite Z.land_spec, Z.bits_0.
  destruct (Z.lt_ge_cases m n) as [Hlt | Hge].
  - rewrite Z.shiftl_spec_low by assumption. apply andb_false_r.
  - rewrite <- (Z.mod_small a (2 ^ n)) by assumption.
    now rewrite Z.mod_pow2_bits_high by lia.
Qed.

Lemma lor_shiftl_add a b n :
  0 <= n -> 0 <= a < 2 ^ n -> Z.lor a (Z.shiftl b n) = a + b * 2 ^ n.
Proof.
  intros Hn Ha.
  rewrite <- Z.lxor_lor, <- Z.add_nocarry_lxor
    by now apply land_shiftl_disjoint.
  now rewrite Z.shiftl_mul_pow2.
Qed.

(** The range of every byte in the context. *)
Ltac pose_byte_ranges :=
  repeat match goal with
         | b : byte |- _ =>
             lazymatch goal with
             | _ : 0 <= byte_to_Z b < 256 |- _ => fail
             | _ => pose proof (byte_to_Z_range b)
             end
         end.

Section BigEndian.
Variables b0 b1 b2 b3 b4 b5 b6 b7 : byte.

Lemma Uint64_word :
  binary.BigEndian.Uint64 [b0; b1; b2; b3; b4; b5; b6; b7]
  = Ok (be_word b0 b1 b2 b3 b4 b5 b6 b7).
Proof. reflexivity. Qed.

Lemma word_be_value :
  be_word b0 b1 b2 b3 b4 b5 b6 b7 = be_value [b0; b1; b2; b3; b4; b5; b6; b7].
Proof.
  unfold be_word, be_value; cbn [fold_left].
  pose_byte_ranges.
  rewrite (lor_shiftl_add _ (byte_to_Z b6) 8) by lia.
  rewrite (lor_shiftl_add _ (byte_to_Z b5) 16) by lia.
  rewrite (lor_shiftl_add _ (byte_to_Z b4) 24) by lia.
  rewrite (lor_shiftl_add _ (byte_to_Z b3) 32) by lia.
  rewrite (lor_shiftl_add _ (byte_to_Z b2) 40) by lia.
  rewrite (lor_shiftl_add _ (byte_to_Z b1) 48) by lia.
  rewrite (lor_shiftl_add _ (byte_to_Z b0) 56) by lia.
  lia.
Qed.

Lemma word_uint64 : is_uint64 (be_word b0 b1 b2 b3 b4 b5 b6 b7).
Proof.
  rewrite word_be_value.
  unfold is_uint64, uint64_mod, be_value; cbn [fold_left].
  pose_byte_ranges. lia.
Qed.

(** What [binary.BigEndian.PutUint64] writes for the word
    [binary.BigEndian.Uint64] read. *)
Lemma word_bytes word :
  word = be_word b0 b1 b2 b3 b4 b5 b6 b7 ->
  [ byte_of_Z (Z.shiftr word 56); byte_of_Z (Z.shiftr word 48);
    byte_of_Z (Z.shiftr word 40); byte_of_Z (Z.shiftr word 32);
    byte_of_Z (Z.shiftr word 24); byte_of_Z (Z.shiftr word 16);
    byte_of_Z (Z.shiftr word 8); byte_of_Z word ]
  = [b0; b1; b2; b3; b4; b5; b6; b7].
Proof.
  intros ->. rewrite word_be_value. unfold be_value; cbn [fold_left].
  pose_byte_ranges.
  repeat (f_equal; [apply byte_of_Z_mod; rewrite ?Z.shiftr_div_pow2 by lia;
                    Z.div_mod_to_equations; lia |]).
  f_equal. apply byte_of_Z_mod. Z.div_mod_to_equations; lia.
Qed.
End BigEndian.

Lemma Bytes_unfold k :
  Bytes (Some k)
  = Ok [ byte_of_Z (Z.shiftr (msb k) 56); byte_of_Z (Z.shiftr (msb k) 48);
         byte_of_Z (Z.shiftr (msb k) 40); byte_of_Z (Z.shiftr (msb k) 32);
         byte_of_Z (Z.shiftr (msb k) 24); byte_of_Z (Z.shiftr (msb k) 16);
         byte_of_Z (Z.shiftr (msb k) 8); byte_of_Z (msb k);
         byte_of_Z (Z.shiftr (lsb k) 56); byte_of_Z (Z.shiftr (lsb k) 48);
         byte_of_Z (Z.shiftr (lsb k) 40); byte_of_Z (Z.shiftr (lsb k) 32);
         byte_of_Z (Z.shiftr (lsb k) 24); byte_of_Z (Z.shiftr (lsb k) 16);
         byte_of_Z (Z.shiftr (lsb k) 8); byte_of_Z (lsb k) ].
Proof. reflexivity. Qed.

(** A list of known length, as its elements. *)
Ltac explode_list l H :=
  repeat (destruct l as [| ? l]; [discriminate H |]);
  destruct l; [| discriminate H].

Lemma FromBytes_Bytes b :
  length b = 16%nat ->
  exists k, FromBytes b = Ok k /\ Bytes (Some k) = Ok b
            /\ msb k = be_value (firstn 8 b) /\ lsb k = be_value (skipn 8 b)
            /\ KUID_wf k.
Proof.
  intros Hb. explode_list b Hb.
  match goal with
  | |- exists k, FromBytes [?a0; ?a1; ?a2; ?a3; ?a4; ?a5; ?a6; ?a7;
                            ?c0; ?c1; ?c2; ?c3; ?c4; ?c5; ?c6; ?c7] = _ /\ _ =>
      exists (mkKUID (be_word a0 a1 a2 a3 a4 a5 a6 a7)
                     (be_word c0 c1 c2 c3 c4 c5 c6 c7));
      pose proof (word_bytes a0 a1 a2 a3 a4 a5 a6 a7 _ eq_refl) as Whi;
      pose proof (word_bytes c0 c1 c2 c3 c4 c5 c6 c7 _ eq_refl) as Wlo
  end.
  split; [reflexivity |].
  cbn [firstn skipn msb lsb].
  split; [| split; [apply word_be_value | split; [apply word_be_value |
           split; apply word_uint64]]].
  rewrite Bytes_unfold. cbn [msb lsb].
  match goal with
  | |- Ok (?x0 :: ?x1 :: ?x2 :: ?x3 :: ?x4 :: ?x5 :: ?x6 :: ?x7 :: ?r) = _ =>
      change (x0 :: x1 :: x2 :: x3 :: x4 :: x5 :: x6 :: x7 :: r)
        with ([x0; x1; x2; x3; x4; x5; x6; x7] ++ r)
  end.
  now rewrite Whi, Wlo.
Qed.

Lemma FromBytes_wrong_length b :
  length b <> 16%nat ->
  FromBytes b = Err (ErrorsNew "byte slice must be exactly 16 bytes").
Proof.
  intros Hb. unfold FromBytes.
  destruct (Z.eqb_spec (len b) 16) as [E | _]; [unfold len in E; lia |].
  reflexivity.
Qed.

(* ================================================================= *)
(** ** UUID text *)

Lemma HasPrefix_empty s : strings.HasPrefix s (str "") = true.
Proof. destruct s; reflexivity. Qed.

Lemma ReplaceAll_hyphen s :
  strings.ReplaceAll s (str "-") (str "") = filter not_hyphen s.
Proof.
  unfold strings.ReplaceAll.
  change (str "-") with [hyphen]. change (str "") with (@nil byte).
  induction s as [| c t IH]; cbn [strings.ReplaceAll_from filter];
    [reflexivity |].
  cbn [strings.HasPrefix length Nat.sub app]. unfold not_hyphen at 1.
  destruct t as [| c' t'].
  - destruct (Byte.eqb c hyphen); reflexivity.
  - rewrite andb_true_r.
    destruct (Byte.eqb c hyphen); cbn [negb]; now rewrite IH.
Qed.

(** *** Facts about single bytes, by enumeration *)

Ltac by_cases_on_byte c :=
  destruct c; vm_compute; first [reflexivity | discriminate | tauto].

Lemma isHexDigit_not_hyphen c :
  isHexDigit c = true -> Byte.eqb c hyphen = false.
Proof. by_cases_on_byte c. Qed.

Lemma isHexDigit_ascii c :
  isHexDigit c = true -> (byte_to_Z c <? RuneSelf) = true.
Proof. by_cases_on_byte c. Qed.

Lemma isHexDigit_ContainsRune c :
  isHexDigit c = true ->
  strings.ContainsRune (str "0123456789abcdefABCDEF") (byte_to_Z c) = true.
Proof. by_cases_on_byte c. Qed.

Lemma isHexDigit_fromHexChar c :
  isHexDigit c = true ->
  exists n, (n < 16)%nat /\ hex.fromHexChar c = Some (Z.of_nat n)
            /\ nth n hex.hextable x00 = toLower c.
Proof.
  intros H.
  destruct c; try (vm_compute in H; discriminate H); clear H.
  all: match goal with
       | |- exists n, _ /\ hex.fromHexChar ?c = _ /\ _ =>
           let v := eval vm_compute in (hex.fromHexChar c) in
           match v with
           | Some ?z =>
               let n := eval vm_compute in (Z.to_nat z) in
               exists n;
               split; [lia | split; vm_compute; reflexivity]
           end
       end.
Qed.

Lemma hex_pair_split n m :
  (n < 16)%nat -> (m < 16)%nat ->
  let v := byte_of_Z (Z.lor (Z.shiftl (Z.of_nat n) 4) (Z.of_nat m)) in
  Z.to_nat (Z.shiftr (byte_to_Z v) 4) = n /\
  Z.to_nat (Z.land (byte_to_Z v) 0x0f) = m.
Proof.
  intros Hn Hm.
  do 16 (destruct n as [| n];
         [do 16 (destruct m as [| m]; [vm_compute; split; reflexivity |]);
          lia |]).
  lia.
Qed.

Lemma toLower_fixed c : between "A" c "Z" = false -> toLower c = c.
Proof. unfold toLower; now intros ->. Qed.

Lemma ToLower_is_lower s : is_lower s = true -> ToLower s = s.
Proof.
  induction s as [| c t IH]; cbn [is_lower forallb ToLower map];
    [reflexivity |].
  intros H. apply andb_prop in H as [Hc Ht].
  apply negb_true_iff in Hc.
  rewrite (toLower_fixed c Hc). f_equal. now apply IH.
Qed.

(** *** Strings of hexadecimal digits *)

Lemma hex_runes_accepted s :
  forallb isHexDigit s = true ->
  existsb
    (fun c => negb (strings.ContainsRune (str "0123456789abcdefABCDEF") c))
    (range_runes O s) = false.
Proof.
  induction s as [| c t IH]; cbn [forallb range_runes]; [reflexivity |].
  intros H. apply andb_prop in H as [Hc Ht].
  rewrite (isHexDigit_ascii c Hc). cbn [existsb].
  rewrite (isHexDigit_ContainsRune c Hc). cbn [negb orb].
  now apply IH.
Qed.

Lemma hex_decode_encode n :
  forall s, length s = (2 * n)%nat -> forallb isHexDigit s = true ->
  exists bytes, hex.DecodeString s = Ok bytes /\ length bytes = n
                /\ hex.EncodeToString bytes = ToLower s.
Proof.
  induction n as [| n IH]; intros s Hlen Hs.
  - destruct s; [| discriminate Hlen]. exists []. now repeat split.
  - destruct s as [| p [| q t]]; try (cbn [length] in Hlen; lia).
    cbn [forallb] in Hs.
    apply andb_prop in Hs as [Hp Hs]. apply andb_prop in Hs as [Hq Ht].
    destruct (isHexDigit_fromHexChar p Hp) as (a & Ha & Ep & Lp).
    destruct (isHexDigit_fromHexChar q Hq) as (b & Hb & Eq & Lq).
    destruct (IH t) as (rest & Er & Hr & Lr);
      [cbn [length] in Hlen; lia | exact Ht |].
    exists (byte_of_Z (Z.lor (Z.shiftl (Z.of_nat a) 4) (Z.of_nat b)) :: rest).
    split; [| split].
    + cbn [hex.DecodeString]. rewrite Ep, Eq, Er. reflexivity.
    + cbn [length]. now rewrite Hr.
    + cbn [hex.EncodeToString ToLower map].
      destruct (hex_pair_split a b Ha Hb) as [-> ->].
      rewrite Lp, Lq. f_equal. f_equal. exact Lr.
Qed.

Lemma ToUUID_hyphenate k :
  ToUUID k = (bytes <- Bytes k ;; hyphenate (hex.EncodeToString bytes)).
Proof. reflexivity. Qed.

Lemma filter_cons_hex c t :
  isHexDigit c = true -> filter not_hyphen (c :: t) = c :: filter not_hyphen t.
Proof.
  intros H. cbn [filter]. unfold not_hyphen at 1.
  now rewrite (isHexDigit_not_hyphen c H).
Qed.

Lemma filter_cons_hyphen t :
  filter not_hyphen (hyphen :: t) = filter not_hyphen t.
Proof. reflexivity. Qed.

Lemma FromUUID_steps uuid clean bytes :
  index uuid 8 = Ok hyphen -> index uuid 13 = Ok hyphen ->
  index uuid 18 = Ok hyphen -> index uuid 23 = Ok hyphen ->
  strings.ReplaceAll uuid (str "-") (str "") = clean ->
  length clean = 32%nat ->
  forallb isHexDigit clean = true ->
  hex.DecodeString clean = Ok bytes ->
  FromUUID uuid = FromBytes bytes.
Proof.
  intros E8 E13 E18 E23 Ec Hl Hc Ed. unfold FromUUID.
  rewrite HasPrefix_empty, E8, E13, E18, E23, Ec.
  cbn [negb andb bind].
  change (Byte.eqb hyphen hyphen) with true. cbn [negb].
  unfold len. rewrite Hl. change (Z.of_nat 32 =? 32) with true. cbn [negb].
  now rewrite (hex_runes_accepted clean Hc), Ed.
Qed.

Lemma valid_uuid_text_clean u :
  valid_uuid_text u = true ->
  exists clean,
    strings.ReplaceAll u (str "-") (str "") = clean
    /\ length clean = 32%nat
    /\ forallb isHexDigit clean = true
    /\ hyphenate (ToLower clean) = Ok (ToLower u)
    /\ index u 8 = Ok hyphen /\ index u 13 = Ok hyphen
    /\ index u 18 = Ok hyphen /\ index u 23 = Ok hyphen.
Proof.
  intros H. unfold valid_uuid_text in H.
  apply andb_prop in H as [Hlen Hc]. apply Nat.eqb_eq in Hlen.
  explode_list u Hlen. clear Hlen.
  cbn [uuid_chars_ok hyphen_at Nat.eqb orb] in Hc.
  repeat (apply andb_prop in Hc as [? Hc]). clear Hc.
  repeat match goal with
         | H : Byte.eqb ?c hyphen = true |- _ =>
             apply Byte.byte_dec_bl in H; subst c
         end.
  eexists. split.
  { rewrite ReplaceAll_hyphen.
    repeat first [ rewrite filter_cons_hyphen
                 | rewrite filter_cons_hex by assumption ].
    reflexivity. }
  split; [reflexivity |].
  split.
  { cbn [forallb].
    repeat (apply andb_true_intro; split; [assumption |]). reflexivity. }
  repeat split; reflexivity.
Qed.

Lemma FromUUID_valid u :
  valid_uuid_text u = true ->
  exists k, FromUUID u = Ok k /\ ToUUID (Some k) = Ok (ToLower u).
Proof.
  intros H.
  destruct (valid_uuid_text_clean u H)
    as (clean & Ec & Hl & Hc & Hh & E8 & E13 & E18 & E23).
  destruct (hex_decode_encode 16 clean Hl Hc) as (bytes & Ed & Hb & Ee).
  destruct (FromBytes_Bytes bytes Hb) as (k & Ek & Eb & _).
  exists k. split.
  - rewrite <- Ek. now apply FromUUID_steps with (clean := clean).
  - rewrite ToUUID_hyphenate, Eb. cbn [bind]. now rewrite Ee.
Qed.

(* ================================================================= *)
(** ** Compact text *)

Lemma String_digits k : String k = Ok (digits 11 (msb k) ++ digits 11 (lsb k)).
Proof. unfold String. now rewrite !encodeLong_digits. Qed.

Lemma FromString_wrong_length s :
  len s <> 22 -> FromString s = Err ErrInvalidLength.
Proof.
  intros Hs. unfold FromString. change (size * 2) with 22.
  now destruct (Z.eqb_spec (len s) 22).
Qed.

Lemma FromString_halves s :
  len s = 22 ->
  FromString s
  = (msb <- decodeLong (firstn 11 s) ;;
     lsb <- decodeLong (skipn 11 s) ;;
     Ok (mkKUID msb lsb)).
Proof.
  intros Hs. unfold FromString. change (size * 2) with 22.
  rewrite Hs. cbn [Z.eqb Pos.eqb negb].
  rewrite slice_to_firstn by (rewrite Hs; unfold size; lia). cbn [bind].
  change (Z.to_nat size) with 11%nat.
  destruct (decodeLong (firstn 11 s)); cbn [bind]; try reflexivity.
  now rewrite slice_from_skipn by (rewrite Hs; unfold size; lia).
Qed.

Lemma len_firstn_11 (s : gostring) : len s = 22 -> len (firstn 11 s) = size.
Proof. unfold len, size. rewrite length_firstn. lia. Qed.

Lemma len_skipn_11 (s : gostring) : len s = 22 -> len (skipn 11 s) = size.
Proof. unfold len, size. rewrite length_skipn. lia. Qed.

Lemma firstn_11_app (h l : gostring) :
  length h = 11%nat -> firstn 11 (h ++ l) = h.
Proof.
  intros Hh. rewrite <- Hh, firstn_app, Nat.sub_diag, firstn_all.
  cbn [firstn]. apply app_nil_r.
Qed.

Lemma skipn_11_app (h l : gostring) :
  length h = 11%nat -> skipn 11 (h ++ l) = l.
Proof.
  intros Hh. rewrite <- Hh, skipn_app, Nat.sub_diag, skipn_all.
  reflexivity.
Qed.

Lemma digits_inj v w :
  is_uint64 v -> is_uint64 w -> digits 11 v = digits 11 w -> v = w.
Proof.
  intros Hv Hw E.
  pose proof (decodeLong_digits v Hv) as Dv.
  rewrite E, (decodeLong_digits w Hw) in Dv. congruence.
Qed.

(* ================================================================= *)
(** ** The scenarios of the test suite *)

Example known_value_zero :
  known_value_scenario (str "00000000-0000-0000-0000-000000000000")
  = Ok (true, str "00000000-0000-0000-0000-000000000000").
Proof. vm_compute. reflexivity. Qed.

Example known_value_max :
  known_value_scenario (str "ffffffff-ffff-ffff-ffff-ffffffffffff")
  = Ok (true, str "ffffffff-ffff-ffff-ffff-ffffffffffff").
Proof. vm_compute. reflexivity. Qed.

Example known_value_random_1 :
  known_value_scenario (str "123e4567-e89b-12d3-a456-426614174000")
  = Ok (true, str "123e4567-e89b-12d3-a456-426614174000").
Proof. vm_compute. reflexivity. Qed.

Example known_value_random_2 :
  known_value_scenario (str "d9db5cf3-c755-4f76-8746-04120f2644c6")
  = Ok (true, str "d9db5cf3-c755-4f76-8746-04120f2644c6").
Proof. vm_compute. reflexivity. Qed.

Example compact_text_of_random_1 :
  (k <- FromUUID (str "123e4567-e89b-12d3-a456-426614174000") ;; String k)
  = Ok (str "1Z6iaOOkk8RE6lE67D2xiC").
Proof. vm_compute. reflexivity. Qed.

Example from_string_valid :
  (k <- FromString (str "AAAAAAAAAAAAAAAAAAAAAA") ;; String k)
  = Ok (str "AAAAAAAAAAAAAAAAAAAAAA").
Proof. vm_compute. reflexivity. Qed.

Example from_string_too_short : FromString (str "ABC") = Err ErrInvalidLength.
Proof. reflexivity. Qed.

Example from_string_empty : FromString (str "") = Err ErrInvalidLength.
Proof. reflexivity. Qed.

Example from_string_bad_character :
  FromString (str "!!!!!!!!!!!!!!!!!!!!!!") = Err ErrInvalidChar.
Proof. vm_compute. reflexivity. Qed.

Example equal_nil : Equal (Some (mkKUID 1 2)) None = Ok false.
Proof. reflexivity. Qed.

Example equal_nil_receiver : Equal None (Some (mkKUID 1 2)) = Panic.
Proof. reflexivity. Qed.

(* ================================================================= *)
(** ** The properties of the package *)

Lemma FromUUID_short_panics uuid : len uuid <= 8 -> FromUUID uuid = Panic.
Proof.
  intros Hs. unfold FromUUID.
  rewrite HasPrefix_empty. cbn [negb andb].
  now rewrite index_out_of_range by assumption.
Qed.

(** C1.  The guard [!strings.HasPrefix(uuid, "") && len(uuid) != 36] of
    [FromUUID] is false for every input, so no length is rejected by it:
    every string of at most eight bytes, the empty one included, reaches
    [uuid[8]] and panics, and a 37-character string carrying a fifth
    hyphen is accepted.  A length other than 36 is therefore not always
    answered with [ErrInvalidUUID]. *)
Theorem FromUUID_length_check_is_dead :
  (forall uuid,
      negb (strings.HasPrefix uuid (str "")) && negb (len uuid =? 36) = false)
  /\ (forall uuid, FromUUID (firstn 8 uuid) = Panic)
  /\ FromUUID (str "") = Panic
  /\ len (str "00000000-0000-0000-0000-000000000000-") = 37
  /\ FromUUID (str "00000000-0000-0000-0000-000000000000-") = Ok (mkKUID 0 0).
Proof.
  split; [| split; [| repeat split; vm_compute; reflexivity]].
  - intros uuid. now rewrite HasPrefix_empty.
  - intros uuid. apply FromUUID_short_panics.
    unfold len. pose proof (firstn_le_length 8 uuid). lia.
Qed.

(** C2.  For every 64-bit unsigned [v], [encodeLong v] returns a string
    that [decodeLong] decodes, without error, to [v]. *)
Theorem decodeLong_encodeLong_roundtrip v :
  is_uint64 v ->
  exists s, encodeLong v = Ok s /\ decodeLong s = Ok v.
Proof.
  intros Hv. exists (digits 11 v). split.
  - apply encodeLong_digits.
  - now apply decodeLong_digits.
Qed.

Lemma decodeLong_encodeLong_roundtrip_witness :
  is_uint64 18446744073709551615
  /\ exists s, encodeLong 18446744073709551615 = Ok s
               /\ decodeLong s = Ok 18446744073709551615.
Proof.
  assert (is_uint64 18446744073709551615) as H
    by (unfold is_uint64, uint64_mod; lia).
  split; [exact H | exact (decodeLong_encodeLong_roundtrip _ H)].
Defined.

(** C3.  For every byte sequence [b] of length 16, [FromBytes b] succeeds
    with an identifier whose [Bytes()] is [b] again; its high half is the
    big-endian value of [b[0:8]] and its low half that of [b[8:16]]. *)
Theorem FromBytes_Bytes_roundtrip b :
  length b = 16%nat ->
  exists k, FromBytes b = Ok k
            /\ Bytes (Some k) = Ok b
            /\ msb k = be_value (firstn 8 b)
            /\ lsb k = be_value (skipn 8 b).
Proof.
  intros Hb.
  destruct (FromBytes_Bytes b Hb) as (k & Ek & Eb & Em & El & _).
  now exists k.
Qed.

Lemma FromBytes_Bytes_roundtrip_witness :
  exists k, FromBytes (str "0123456789abcdef") = Ok k
            /\ Bytes (Some k) = Ok (str "0123456789abcdef")
            /\ msb k = be_value (firstn 8 (str "0123456789abcdef"))
            /\ lsb k = be_value (skipn 8 (str "0123456789abcdef")).
Proof.
  apply (FromBytes_Bytes_roundtrip (str "0123456789abcdef")). reflexivity.
Defined.

(** C4.  For every 36-character string [u] with hyphens at positions 8,
    13, 18 and 23 and hexadecimal digits elsewhere, [FromUUID u] succeeds
    and [ToUUID] of the result is [u] with its letters in lower case; it is
    [u] itself when [u] has no upper-case letter. *)
Theorem FromUUID_ToUUID_roundtrip u :
  valid_uuid_text u = true ->
  exists k, FromUUID u = Ok k
            /\ ToUUID (Some k) = Ok (ToLower u)
            /\ (is_lower u = true -> ToUUID (Some k) = Ok u).
Proof.
  intros Hu. destruct (FromUUID_valid u Hu) as (k & Ek & Et).
  exists k. repeat split; try assumption.
  intros Hl. now rewrite Et, (ToLower_is_lower u Hl).
Qed.

Lemma FromUUID_ToUUID_roundtrip_witness :
  exists k, FromUUID (str "123E4567-e89b-12D3-a456-426614174000") = Ok k
            /\ ToUUID (Some k)
               = Ok (ToLower (str "123E4567-e89b-12D3-a456-426614174000"))
            /\ (is_lower (str "123E4567-e89b-12D3-a456-426614174000") = true ->
                ToUUID (Some k) = Ok (str "123E4567-e89b-12D3-a456-426614174000")).
Proof.
  apply (FromUUID_ToUUID_roundtrip (str "123E4567-e89b-12D3-a456-426614174000")).
  vm_compute. reflexivity.
Defined.

(** C5.  For every identifier [k] (any two 64-bit halves), [k.String()]
    returns a string that [FromString] parses, without error, to an
    identifier equal to [k] under [Equal]. *)
Theorem String_FromString_roundtrip k :
  KUID_wf k ->
  exists s k', String k = Ok s
               /\ FromString s = Ok k'
               /\ Equal (Some k) (Some k') = Ok true
               /\ Equal (Some k') (Some k) = Ok true.
Proof.
  intros [Hm Hl]. exists (digits 11 (msb k) ++ digits 11 (lsb k)), k.
  split; [apply String_digits |]. split.
  - rewrite FromString_halves
      by (rewrite len_app; unfold len; now rewrite !length_digits).
    rewrite firstn_11_app, skipn_11_app by apply length_digits.
    rewrite (decodeLong_digits _ Hm), (decodeLong_digits _ Hl).
    now destruct k.
  - unfold Equal; cbn [deref bind]. now rewrite !Z.eqb_refl.
Qed.

Lemma String_FromString_roundtrip_witness :
  KUID_wf (mkKUID 1314564453825188563 11841725276408463360)
  /\ exists s k',
      String (mkKUID 1314564453825188563 11841725276408463360) = Ok s
      /\ FromString s = Ok k'
      /\ Equal (Some (mkKUID 1314564453825188563 11841725276408463360)) (Some k')
         = Ok true
      /\ Equal (Some k') (Some (mkKUID 1314564453825188563 11841725276408463360))
         = Ok true.
Proof.
  assert (KUID_wf (mkKUID 1314564453825188563 11841725276408463360)) as H
    by (unfold KUID_wf, is_uint64, uint64_mod; simpl; lia).
  split; [exact H | exact (String_FromString_roundtrip _ H)].
Defined.

(** C6.  [FromString s] fails with [ErrInvalidLength] whenever [len s] is
    not 22; for a 22-character [s] it fails with [ErrInvalidChar] when one
    of the two 11-character halves has a character outside the alphabet,
    and succeeds otherwise; on success the high half is what [decodeLong]
    gives for the first 11 characters and the low half what it gives for
    the last 11, so that exchanging the two halves of [s] exchanges the
    halves of the identifier, a different identifier unless they agree. *)
Theorem FromString_spec s :
  (len s <> 22 -> FromString s = Err ErrInvalidLength)
  /\ (len s = 22 ->
      forallb in_alphabet (firstn 11 s) = false
      \/ forallb in_alphabet (skipn 11 s) = false ->
      FromString s = Err ErrInvalidChar)
  /\ (len s = 22 -> forallb in_alphabet s = true ->
      FromString s
      = Ok (mkKUID (base62_value (firstn 11 s) mod 2 ^ 64)
                   (base62_value (skipn 11 s) mod 2 ^ 64)))
  /\ (forall k, FromString s = Ok k ->
        decodeLong (firstn 11 s) = Ok (msb k)
        /\ decodeLong (skipn 11 s) = Ok (lsb k)
        /\ FromString (skipn 11 s ++ firstn 11 s) = Ok (mkKUID (lsb k) (msb k))
        /\ (msb k <> lsb k -> FromString (skipn 11 s ++ firstn 11 s) <> Ok k)).
Proof.
  split; [apply FromString_wrong_length |].
  split; [| split].
  - intros Hs Hbad. rewrite FromString_halves by assumption.
    destruct (forallb in_alphabet (firstn 11 s)) eqn:Hhi.
    + destruct Hbad as [Hbad | Hbad]; [discriminate Hbad |].
      rewrite (decodeLong_value _ (len_firstn_11 s Hs) Hhi). cbn [bind].
      now rewrite (decodeLong_invalid _ (len_skipn_11 s Hs) Hbad).
    + now rewrite (decodeLong_invalid _ (len_firstn_11 s Hs) Hhi).
  - intros Hs Hok. rewrite FromString_halves by assumption.
    rewrite <- (firstn_skipn 11 s), forallb_app in Hok.
    apply andb_prop in Hok as [Hhi Hlo].
    rewrite (decodeLong_value _ (len_firstn_11 s Hs) Hhi). cbn [bind].
    now rewrite (decodeLong_value _ (len_skipn_11 s Hs) Hlo).
  - intros k Hk.
    destruct (Z.eq_dec (len s) 22) as [Hs | Hs];
      [| rewrite (FromString_wrong_length s Hs) in Hk; discriminate Hk].
    rewrite FromString_halves in Hk by assumption.
    destruct (decodeLong (firstn 11 s)) as [hi | |] eqn:Ehi;
      cbn [bind] in Hk; try discriminate Hk.
    destruct (decodeLong (skipn 11 s)) as [lo | |] eqn:Elo;
      cbn [bind] in Hk; try discriminate Hk.
    injection Hk as <-. cbn [msb lsb].
    assert (length (skipn 11 s) = 11%nat) as Hl
      by (rewrite length_skipn; unfold len in Hs; lia).
    assert (FromString (skipn 11 s ++ firstn 11 s) = Ok (mkKUID lo hi)) as Hswap.
    { rewrite FromString_halves.
      - rewrite firstn_11_app, skipn_11_app by assumption.
        now rewrite Elo, Ehi.
      - rewrite len_app. pose proof (len_firstn_11 s Hs).
        pose proof (len_skipn_11 s Hs). unfold size in *. lia. }
    repeat split; try reflexivity; try assumption.
    intros Hne. rewrite Hswap. intros E. injection E as E1 E2. congruence.
Qed.

Lemma FromString_spec_witness :
  FromString (str "ABC") = Err ErrInvalidLength
  /\ FromString (str "0000000000A!000000000B") = Err ErrInvalidChar
  /\ FromString (str "0000000000A0000000000B")
     = Ok (mkKUID (base62_value (firstn 11 (str "0000000000A0000000000B")) mod 2 ^ 64)
                  (base62_value (skipn 11 (str "0000000000A0000000000B")) mod 2 ^ 64))
  /\ FromString (str "0000000000B0000000000A") = Ok (mkKUID 11 10)
  /\ FromString (str "0000000000B0000000000A") <> Ok (mkKUID 10 11).
Proof.
  split; [| split; [| split]].
  - apply (proj1 (FromString_spec (str "ABC"))). vm_compute. discriminate.
  - apply (proj1 (proj2 (FromString_spec (str "0000000000A!000000000B")))).
    + reflexivity.
    + right. reflexivity.
  - apply (proj1 (proj2 (proj2 (FromString_spec (str "0000000000A0000000000B")))));
      reflexivity.
  - destruct (proj2 (proj2 (proj2 (FromString_spec (str "0000000000A0000000000B"))))
                (mkKUID 10 11) eq_refl) as (_ & _ & Hswap & Hne).
    split; [exact Hswap |].
    apply Hne. simpl. lia.
Defined.

(** C7, as the code has it.  [FromBytes] reports a wrong length with an
    error value of its own, [errors.New("byte slice must be exactly 16
    bytes")], which is not [ErrInvalidLength]. *)
Lemma FromBytes_error_is_not_ErrInvalidLength :
  len (make 15) <> 16 /\ FromBytes (make 15) <> Err ErrInvalidLength.
Proof. split; vm_compute; discriminate. Qed.

(** C7, amended.  For every byte sequence [b] whose length is not 16
    (15 and 17 included) [FromBytes b] fails, with the error
    [errors.New("byte slice must be exactly 16 bytes")]; for length 16 it
    succeeds, and the identifier holds exactly the bytes of [b]: nothing is
    cut off or padded. *)
Theorem FromBytes_length_check b :
  (len b <> 16 ->
   FromBytes b = Err (ErrorsNew "byte slice must be exactly 16 bytes"))
  /\ (len b = 16 -> exists k, FromBytes b = Ok k /\ Bytes (Some k) = Ok b).
Proof.
  split; intros Hb.
  - apply FromBytes_wrong_length. unfold len in Hb. lia.
  - destruct (FromBytes_Bytes b) as (k & Ek & Eb & _);
      [unfold len in Hb; lia |].
    now exists k.
Qed.

Lemma FromBytes_length_check_witness :
  FromBytes (make 15) = Err (ErrorsNew "byte slice must be exactly 16 bytes")
  /\ FromBytes (make 17) = Err (ErrorsNew "byte slice must be exactly 16 bytes")
  /\ exists k, FromBytes (make 16) = Ok k /\ Bytes (Some k) = Ok (make 16).
Proof.
  split; [| split].
  - apply (proj1 (FromBytes_length_check (make 15))). vm_compute. discriminate.
  - apply (proj1 (FromBytes_length_check (make 17))). vm_compute. discriminate.
  - apply (proj2 (FromBytes_length_check (make 16))). reflexivity.
Defined.

(** C8.  For every 64-bit unsigned [v], [encodeLong v] is a string of
    exactly 11 characters of the alphabet, and the positions a smaller
    value does not need hold ['0'], the symbol of index 0; eleven
    divisions by 62 leave nothing of [v].  The all-zero UUID becomes the
    identifier whose compact text is 22 times ['0'] and whose bytes are 16
    zero bytes. *)
Theorem encodeLong_fixed_width :
  (forall v, is_uint64 v ->
     exists s, encodeLong v = Ok s
               /\ len s = 11
               /\ forallb in_alphabet s = true
               /\ v / base ^ size = 0
               /\ forall k, (k <= 11)%nat -> v < 62 ^ Z.of_nat k ->
                            firstn (11 - k) s = repeat "0"%byte (11 - k))
  /\ index base62Chars 0 = Ok "0"%byte
  /\ exists k, FromUUID (str "00000000-0000-0000-0000-000000000000") = Ok k
               /\ String k = Ok (repeat "0"%byte 22)
               /\ Bytes (Some k) = Ok (repeat x00 16).
Proof.
  split; [| split; [reflexivity |]].
  - intros v [Hlo Hhi]. exists (digits 11 v).
    split; [apply encodeLong_digits |].
    split; [unfold len; now rewrite length_digits |].
    split; [apply digits_in_alphabet |].
    split.
    + apply Z.div_small. unfold uint64_mod in Hhi.
      change (base ^ size) with 52036560683837093888. lia.
    + intros k Hk Hv. apply digits_small; [rewrite base_eq; lia | exact Hk].
  - exists (mkKUID 0 0). repeat split; vm_compute; reflexivity.
Qed.

Lemma encodeLong_fixed_width_witness :
  exists s, encodeLong 61 = Ok s
            /\ len s = 11
            /\ forallb in_alphabet s = true
            /\ 61 / base ^ size = 0
            /\ forall k, (k <= 11)%nat -> 61 < 62 ^ Z.of_nat k ->
                         firstn (11 - k) s = repeat "0"%byte (11 - k).
Proof.
  apply (proj1 encodeLong_fixed_width 61).
  unfold is_uint64, uint64_mod. lia.
Defined.

(** C9.  [decodeLong] succeeds on every 11-character string over the
    alphabet, and returns the base-62 value of the string reduced modulo
    2^64: ["zzzzzzzzzzz"], whose value 62^11 - 1 exceeds 2^64 - 1, decodes
    without error to (62^11 - 1) mod 2^64. *)
Theorem decodeLong_total_wraps :
  (forall s, len s = 11 -> forallb in_alphabet s = true ->
             decodeLong s = Ok (base62_value s mod 2 ^ 64))
  /\ base62_value (str "zzzzzzzzzzz") = 62 ^ 11 - 1
  /\ 2 ^ 64 - 1 < 62 ^ 11 - 1
  /\ decodeLong (str "zzzzzzzzzzz") = Ok ((62 ^ 11 - 1) mod 2 ^ 64).
Proof.
  split; [| repeat split; vm_compute; reflexivity].
  intros s Hs Hok. now apply decodeLong_value.
Qed.

Lemma decodeLong_total_wraps_witness :
  decodeLong (str "LygHa16AHYG")
  = Ok (base62_value (str "LygHa16AHYG") mod 2 ^ 64).
Proof.
  apply (proj1 decodeLong_total_wraps (str "LygHa16AHYG")); reflexivity.
Defined.

(** C10.  For two non-nil identifiers [a] and [b], [a.Equal(b)] is true
    exactly when [a.String()] and [b.String()] are the same string. *)
Theorem Equal_iff_String_eq a b :
  KUID_wf a -> KUID_wf b ->
  exists sa sb r,
    String a = Ok sa /\ String b = Ok sb /\ Equal (Some a) (Some b) = Ok r
    /\ (r = true <-> sa = sb).
Proof.
  intros [Ham Hal] [Hbm Hbl].
  exists (digits 11 (msb a) ++ digits 11 (lsb a)),
         (digits 11 (msb b) ++ digits 11 (lsb b)),
         ((msb a =? msb b) && (lsb a =? lsb b)).
  split; [apply String_digits |]. split; [apply String_digits |].
  split; [reflexivity |]. split.
  - intros H. apply andb_prop in H as [Hm Hl].
    apply Z.eqb_eq in Hm, Hl. now rewrite Hm, Hl.
  - intros H.
    assert (digits 11 (msb a) = digits 11 (msb b)) as Hm.
    { apply (f_equal (firstn 11)) in H.
      now rewrite !firstn_11_app in H by apply length_digits. }
    assert (digits 11 (lsb a) = digits 11 (lsb b)) as Hl.
    { apply (f_equal (skipn 11)) in H.
      now rewrite !skipn_11_app in H by apply length_digits. }
    apply digits_inj in Hm, Hl; try assumption.
    rewrite Hm, Hl, !Z.eqb_refl. reflexivity.
Qed.

Lemma Equal_iff_String_eq_witness :
  exists sa sb r,
    String (mkKUID 1 2) = Ok sa /\ String (mkKUID 2 1) = Ok sb
    /\ Equal (Some (mkKUID 1 2)) (Some (mkKUID 2 1)) = Ok r
    /\ (r = true <-> sa = sb).
Proof.
  apply (Equal_iff_String_eq (mkKUID 1 2) (mkKUID 2 1));
    unfold KUID_wf, is_uint64, uint64_mod; simpl; lia.
Defined.

(* ================================================================= *)
(** ** Further properties: the base-62 codec *)

Lemma Ok_inj {A : Type} (a b : A) : Ok a = Ok b -> a = b.
Proof. congruence. Qed.

Lemma IndexByte_base62Chars_range c :
  in_alphabet c = true -> 0 <= strings.IndexByte base62Chars c < base.
Proof.
  unfold in_alphabet; intros H. apply Z.leb_le in H.
  pose proof (IndexByte_lt base62Chars c) as Hlt.
  change (len base62Chars) with base in Hlt. lia.
Qed.

Lemma base62_value_range s :
  forallb in_alphabet s = true -> 0 <= base62_value s < base ^ len s.
Proof.
  induction s as [| c t IH]; intros Hs; cbn [base62_value].
  - change (len (@nil byte)) with 0. rewrite Z.pow_0_r. lia.
  - cbn [forallb] in Hs. apply andb_prop in Hs as [Hc Ht].
    specialize (IH Ht). apply IndexByte_base62Chars_range in Hc.
    rewrite len_cons, Z.pow_add_r, Z.pow_1_r by (try apply len_nonneg; lia).
    revert Hc IH. rewrite base_eq.
    generalize (strings.IndexByte base62Chars c) (base62_value t) (62 ^ len t).
    intros d v p Hd Hv. nia.
Qed.

Lemma digits_base62_value s :
  forallb in_alphabet s = true -> digits (length s) (base62_value s) = s.
Proof.
  induction s as [| c s IH] using rev_ind; intros Hs.
  - reflexivity.
  - rewrite forallb_app, forallb_single in Hs.
    apply andb_prop in Hs as [Hs Hc].
    pose proof (IndexByte_base62Chars_range c Hc) as Hd.
    rewrite length_app, Nat.add_1_r. cbn [length digits].
    rewrite base62_value_snoc.
    assert ((base62_value s * base + strings.IndexByte base62Chars c) / base
            = base62_value s) as ->.
    { revert Hd. rewrite base_eq.
      generalize (strings.IndexByte base62Chars c) (base62_value s).
      intros d v Hd. symmetry. apply (Z.div_unique _ _ _ d); lia. }
    assert ((base62_value s * base + strings.IndexByte base62Chars c) mod base
            = strings.IndexByte base62Chars c) as ->.
    { revert Hd. rewrite base_eq.
      generalize (strings.IndexByte base62Chars c) (base62_value s).
      intros d v Hd. symmetry. apply (Z.mod_unique _ _ v d); lia. }
    rewrite (IH Hs). f_equal. f_equal.
    apply IndexByte_nth. lia.
Qed.

Lemma decodeLong_closed_form s :
  decodeLong s
  = if negb (len s =? 11) then Err ErrInvalidLength
    else if forallb in_alphabet s then Ok (base62_value s mod 2 ^ 64)
         else Err ErrInvalidChar.
Proof.
  destruct (Z.eqb_spec (len s) 11) as [Hs | Hs]; cbn [negb].
  - destruct (forallb in_alphabet s) eqn:Ha.
    + now apply decodeLong_value.
    + now apply decodeLong_invalid.
  - unfold decodeLong. change size with 11.
    now destruct (Z.eqb_spec (len s) 11).
Qed.

Lemma decodeLong_Ok_inv s v :
  decodeLong s = Ok v ->
  length s = 11%nat /\ forallb in_alphabet s = true
  /\ v = base62_value s mod 2 ^ 64.
Proof.
  rewrite decodeLong_closed_form.
  destruct (Z.eqb_spec (len s) 11) as [Hs | Hs]; cbn [negb];
    [| discriminate].
  destruct (forallb in_alphabet s); [| discriminate].
  intros E. injection E as <-. unfold len in Hs. repeat split. lia.
Qed.

Lemma encodeLong_decoded s v :
  decodeLong s = Ok v ->
  is_uint64 v /\ (encodeLong v = Ok s <-> canonical s).
Proof.
  intros H. destruct (decodeLong_Ok_inv s v H) as (Hl & Ha & ->).
  pose proof (base62_value_range s Ha) as Hr.
  split.
  - unfold is_uint64, uint64_mod. apply Z.mod_pos_bound. lia.
  - rewrite encodeLong_digits. unfold canonical. split.
    + intros E. apply Ok_inj in E.
      apply (f_equal base62_value) in E.
      rewrite base62_value_digits in E by (apply Z.mod_pos_bound; lia).
      assert (0 <= base62_value s mod 2 ^ 64 < 2 ^ 64) as Hm
        by (apply Z.mod_pos_bound; lia).
      rewrite base_eq in E.
      change (62 ^ Z.of_nat 11) with 52036560683837093888 in E.
      rewrite Z.mod_small in E by lia. lia.
    + intros Hc. rewrite Z.mod_small by lia.
      rewrite <- Hl. now rewrite digits_base62_value.
Qed.

(** X1.  [decodeLong] never panics, and its outcome is decided by two
    tests: a length other than 11 gives [ErrInvalidLength] (whatever the
    characters are), a character outside the alphabet gives
    [ErrInvalidChar], and otherwise the result is the base-62 value of the
    string modulo 2^64. *)
Theorem decodeLong_outcome s :
  decodeLong s <> Panic
  /\ decodeLong s
     = if negb (len s =? 11) then Err ErrInvalidLength
       else if forallb in_alphabet s then Ok (base62_value s mod 2 ^ 64)
            else Err ErrInvalidChar.
Proof.
  split; [| apply decodeLong_closed_form].
  rewrite decodeLong_closed_form.
  destruct (negb (len s =? 11)); [discriminate |].
  destruct (forallb in_alphabet s); discriminate.
Qed.

(** X2.  Whatever [decodeLong] returns is a 64-bit value, and encoding it
    gives the decoded string back exactly when that string is canonical,
    that is when the number it denotes is below 2^64. *)
Theorem encodeLong_decodeLong_canonical s v :
  decodeLong s = Ok v ->
  is_uint64 v /\ (encodeLong v = Ok s <-> canonical s).
Proof. apply encodeLong_decoded. Qed.

Lemma encodeLong_decodeLong_canonical_witness :
  is_uint64 18446744073709551615
  /\ (encodeLong 18446744073709551615 = Ok (str "LygHa16AHYF")
      <-> canonical (str "LygHa16AHYF")).
Proof.
  apply (encodeLong_decodeLong_canonical (str "LygHa16AHYF")).
  vm_compute. reflexivity.
Defined.

(* ================================================================= *)
(** ** Further properties: compact text *)

Lemma FromString_Ok_inv s k :
  FromString s = Ok k ->
  len s = 22
  /\ decodeLong (firstn 11 s) = Ok (msb k)
  /\ decodeLong (skipn 11 s) = Ok (lsb k).
Proof.
  intros Hk.
  destruct (Z.eq_dec (len s) 22) as [Hs | Hs];
    [| rewrite (FromString_wrong_length s Hs) in Hk; discriminate Hk].
  rewrite FromString_halves in Hk by assumption.
  destruct (decodeLong (firstn 11 s)) as [hi | |] eqn:Ehi;
    cbn [bind] in Hk; try discriminate Hk.
  destruct (decodeLong (skipn 11 s)) as [lo | |] eqn:Elo;
    cbn [bind] in Hk; try discriminate Hk.
  apply Ok_inj in Hk. subst k. now repeat split.
Qed.

Lemma FromString_digits k :
  KUID_wf k -> FromString (digits 11 (msb k) ++ digits 11 (lsb k)) = Ok k.
Proof.
  intros [Hm Hl].
  rewrite FromString_halves
    by (rewrite len_app; unfold len; now rewrite !length_digits).
  rewrite firstn_11_app, skipn_11_app by apply length_digits.
  rewrite (decodeLong_digits _ Hm), (decodeLong_digits _ Hl).
  now destruct k.
Qed.

Lemma app_eq_11 (a b c d : gostring) :
  length a = 11%nat -> length c = 11%nat ->
  a ++ b = c ++ d <-> a = c /\ b = d.
Proof.
  intros Ha Hc. split.
  - intros E. split.
    + apply (f_equal (firstn 11)) in E.
      now rewrite !firstn_11_app in E by assumption.
    + apply (f_equal (skipn 11)) in E.
      now rewrite !skipn_11_app in E by assumption.
  - now intros [-> ->].
Qed.

Lemma Ok_eq_iff {A : Type} (a b : A) : Ok a = Ok b <-> a = b.
Proof. split; [apply Ok_inj | now intros ->]. Qed.

(** X3.  An identifier parsed by [FromString] has 64-bit halves; rendering
    it with [String] gives a string that parses to the same identifier,
    and that string is the one parsed exactly when both of its
    11-character halves are canonical. *)
Theorem String_FromString_canonical s k :
  FromString s = Ok k ->
  KUID_wf k
  /\ (exists s', String k = Ok s' /\ FromString s' = Ok k)
  /\ (String k = Ok s <-> canonical (firstn 11 s) /\ canonical (skipn 11 s)).
Proof.
  intros Hk. destruct (FromString_Ok_inv s k Hk) as (Hs & Ehi & Elo).
  destruct (encodeLong_decoded _ _ Ehi) as [Hm Chi].
  destruct (encodeLong_decoded _ _ Elo) as [Hl Clo].
  assert (KUID_wf k) as Hwf by now split.
  split; [exact Hwf |]. split.
  - exists (digits 11 (msb k) ++ digits 11 (lsb k)).
    split; [apply String_digits | now apply FromString_digits].
  - rewrite String_digits, Ok_eq_iff.
    rewrite <- (firstn_skipn 11 s) at 1.
    rewrite app_eq_11;
      [| apply length_digits
       | rewrite length_firstn; unfold len in Hs; lia].
    rewrite <- Chi, <- Clo, !encodeLong_digits, !Ok_eq_iff. tauto.
Qed.

Lemma String_FromString_canonical_witness :
  KUID_wf (mkKUID 8530583718661818670 8530583718661818670)
  /\ (exists s', String (mkKUID 8530583718661818670 8530583718661818670) = Ok s'
                 /\ FromString s'
                    = Ok (mkKUID 8530583718661818670 8530583718661818670))
  /\ (String (mkKUID 8530583718661818670 8530583718661818670)
      = Ok (str "AAAAAAAAAAAAAAAAAAAAAA")
      <-> canonical (firstn 11 (str "AAAAAAAAAAAAAAAAAAAAAA"))
          /\ canonical (skipn 11 (str "AAAAAAAAAAAAAAAAAAAAAA"))).
Proof.
  apply (String_FromString_canonical (str "AAAAAAAAAAAAAAAAAAAAAA")).
  vm_compute. reflexivity.
Defined.

(** X4.  For every identifier, whatever its halves, [String] succeeds and
    returns exactly 22 characters, all of the base-62 alphabet. *)
Theorem String_shape k :
  exists s, String k = Ok s /\ len s = 22 /\ forallb in_alphabet s = true.
Proof.
  exists (digits 11 (msb k) ++ digits 11 (lsb k)).
  split; [apply String_digits |]. split.
  - rewrite len_app. unfold len. now rewrite !length_digits.
  - now rewrite forallb_app, !digits_in_alphabet.
Qed.

(** *** The order of compact texts *)

Lemma byte_to_Z_inj x y : byte_to_Z x = byte_to_Z y -> x = y.
Proof.
  intros E. rewrite <- (byte_of_to_Z x), <- (byte_of_to_Z y). now rewrite E.
Qed.

Lemma string_lt_app a b x y :
  length a = length b ->
  string_lt (a ++ x) (b ++ y) = true
  <-> string_lt a b = true \/ (a = b /\ string_lt x y = true).
Proof.
  revert b; induction a as [| h a IH]; intros [| g b] Hl;
    try discriminate Hl.
  - cbn [app]. split.
    + intros H. right. now split.
    + intros [H | [_ H]]; [discriminate H | exact H].
  - cbn [app string_lt].
    destruct (Z.ltb_spec (byte_to_Z h) (byte_to_Z g)) as [Hlt | Hge].
    + split; [now left | reflexivity].
    + destruct (Z.ltb_spec (byte_to_Z g) (byte_to_Z h)) as [Hgt | Hle].
      * split; [discriminate |].
        intros [H | [E _]]; [discriminate H |].
        injection E as -> _. lia.
      * assert (h = g) as -> by (apply byte_to_Z_inj; lia).
        rewrite IH by (cbn [length] in Hl; lia).
        split; intros [H | [E H]]; auto.
        -- right. split; [now rewrite E | exact H].
        -- right. split; [now injection E | exact H].
Qed.

Lemma alphabet_increasing i j :
  (i < 62)%nat -> (j < 62)%nat ->
  (byte_to_Z (nth i base62Chars x00) <? byte_to_Z (nth j base62Chars x00))
  = (i <? j)%nat.
Proof.
  intros Hi Hj.
  assert (forallb (fun i => forallb (fun j =>
            Bool.eqb (byte_to_Z (nth i base62Chars x00)
                      <? byte_to_Z (nth j base62Chars x00))
                     (i <? j)%nat) (seq 0 62)) (seq 0 62) = true) as H
    by (vm_compute; reflexivity).
  rewrite forallb_forall in H.
  specialize (H i ltac:(apply in_seq; lia)).
  rewrite forallb_forall in H.
  specialize (H j ltac:(apply in_seq; lia)).
  now apply Bool.eqb_prop in H.
Qed.

Lemma digits_eq_iff n v w :
  0 <= v < base ^ Z.of_nat n -> 0 <= w < base ^ Z.of_nat n ->
  digits n v = digits n w <-> v = w.
Proof.
  intros Hv Hw. split; [| now intros ->].
  intros E. apply (f_equal base62_value) in E.
  rewrite !base62_value_digits in E by lia.
  now rewrite !Z.mod_small in E by assumption.
Qed.

Lemma digits_lt n v w :
  0 <= v < base ^ Z.of_nat n -> 0 <= w < base ^ Z.of_nat n ->
  string_lt (digits n v) (digits n w) = true <-> v < w.
Proof.
  revert v w; induction n as [| n IH]; intros v w Hv Hw.
  - change (base ^ Z.of_nat 0) with 1 in *. cbn [digits string_lt].
    split; [discriminate | lia].
  - rewrite Nat2Z.inj_succ, Z.pow_succ_r in Hv, Hw by lia.
    assert (0 < base ^ Z.of_nat n) as Hp
      by (rewrite base_eq; apply Z.pow_pos_nonneg; lia).
    assert (0 <= v / base < base ^ Z.of_nat n) as Hqv.
    { rewrite base_eq in *. split; [apply Z.div_pos; lia |].
      apply Z.div_lt_upper_bound; lia. }
    assert (0 <= w / base < base ^ Z.of_nat n) as Hqw.
    { rewrite base_eq in *. split; [apply Z.div_pos; lia |].
      apply Z.div_lt_upper_bound; lia. }
    cbn [digits].
    rewrite string_lt_app by now rewrite !length_digits.
    rewrite (IH _ _ Hqv Hqw), (digits_eq_iff n _ _ Hqv Hqw).
    pose proof (mod_base_range v) as Hrv. pose proof (mod_base_range w) as Hrw.
    cbn [string_lt].
    rewrite alphabet_increasing by (rewrite base_eq in *; lia).
    assert (forall p q : nat, (if (p <? q)%nat then true
                               else if (q <? p)%nat then false else false)
                              = true <-> (p < q)%nat) as Hpq.
    { intros p q. destruct (Nat.ltb_spec p q); [tauto |].
      destruct (Nat.ltb_spec q p); split; (discriminate || lia). }
    match goal with
    | |- context [if (?p <? ?q)%nat then true else _] =>
        replace (if (p <? q)%nat then true
                 else if byte_to_Z (nth q base62Chars x00)
                         <? byte_to_Z (nth p base62Chars x00)
                      then false else false)
          with (p <? q)%nat
          by (destruct (p <? q)%nat; [reflexivity |];
              now destruct (byte_to_Z (nth q base62Chars x00)
                            <? byte_to_Z (nth p base62Chars x00)))
    end.
    rewrite Nat.ltb_lt. rewrite base_eq in *.
    rewrite <- Z2Nat.inj_lt by lia.
    Z.div_mod_to_equations. lia.
Qed.

(** X5.  The compact text keeps the numeric order: for 64-bit [v] and [w],
    [encodeLong v] is below [encodeLong w] as a Go string exactly when
    [v < w]; and the text of an identifier is below that of another exactly
    when its (high, low) pair is smaller, high half first. *)
Theorem String_order_preserving :
  (forall v w, is_uint64 v -> is_uint64 w ->
     exists sv sw, encodeLong v = Ok sv /\ encodeLong w = Ok sw
                   /\ (string_lt sv sw = true <-> v < w))
  /\ (forall a b, KUID_wf a -> KUID_wf b ->
        exists sa sb, String a = Ok sa /\ String b = Ok sb
                      /\ (string_lt sa sb = true
                          <-> msb a < msb b
                              \/ (msb a = msb b /\ lsb a < lsb b))).
Proof.
  assert (forall v, is_uint64 v -> 0 <= v < base ^ Z.of_nat 11) as Hr.
  { intros v [Hlo Hhi]. unfold uint64_mod in Hhi. rewrite base_eq.
    change (62 ^ Z.of_nat 11) with 52036560683837093888. lia. }
  split.
  - intros v w Hv Hw. exists (digits 11 v), (digits 11 w).
    split; [apply encodeLong_digits |]. split; [apply encodeLong_digits |].
    apply digits_lt; now apply Hr.
  - intros a b [Ham Hal] [Hbm Hbl].
    exists (digits 11 (msb a) ++ digits 11 (lsb a)),
           (digits 11 (msb b) ++ digits 11 (lsb b)).
    split; [apply String_digits |]. split; [apply String_digits |].
    rewrite string_lt_app by now rewrite !length_digits.
    rewrite !digits_lt, digits_eq_iff by now apply Hr.
    tauto.
Qed.

Lemma String_order_preserving_witness :
  (exists sv sw, encodeLong 61 = Ok sv /\ encodeLong 62 = Ok sw
                 /\ (string_lt sv sw = true <-> 61 < 62))
  /\ (exists sa sb, String (mkKUID 1 5) = Ok sa /\ String (mkKUID 2 0) = Ok sb
                    /\ (string_lt sa sb = true
                        <-> msb (mkKUID 1 5) < msb (mkKUID 2 0)
                            \/ (msb (mkKUID 1 5) = msb (mkKUID 2 0)
                                /\ lsb (mkKUID 1 5) < lsb (mkKUID 2 0)))).
Proof.
  split.
  - apply (proj1 String_order_preserving 61 62);
      unfold is_uint64, uint64_mod; lia.
  - apply (proj2 String_order_preserving (mkKUID 1 5) (mkKUID 2 0));
      unfold KUID_wf, is_uint64, uint64_mod; simpl; lia.
Defined.

(* ================================================================= *)
(** ** Further properties: bytes *)

Lemma FromBytes_explicit x0 x1 x2 x3 x4 x5 x6 x7 y0 y1 y2 y3 y4 y5 y6 y7 :
  FromBytes [x0; x1; x2; x3; x4; x5; x6; x7; y0; y1; y2; y3; y4; y5; y6; y7]
  = Ok (mkKUID (be_word x0 x1 x2 x3 x4 x5 x6 x7)
               (be_word y0 y1 y2 y3 y4 y5 y6 y7)).
Proof. reflexivity. Qed.

Lemma word_of_bytes v :
  is_uint64 v ->
  be_word (byte_of_Z (Z.shiftr v 56)) (byte_of_Z (Z.shiftr v 48))
          (byte_of_Z (Z.shiftr v 40)) (byte_of_Z (Z.shiftr v 32))
          (byte_of_Z (Z.shiftr v 24)) (byte_of_Z (Z.shiftr v 16))
          (byte_of_Z (Z.shiftr v 8)) (byte_of_Z v)
  = v.
Proof.
  intros [Hlo Hhi]. unfold uint64_mod in Hhi.
  rewrite word_be_value. unfold be_value; cbn [fold_left].
  rewrite !byte_to_of_Z, !Z.shiftr_div_pow2 by lia.
  Z.div_mod_to_equations. lia.
Qed.

Lemma Bytes_FromBytes k :
  KUID_wf k ->
  exists b, Bytes (Some k) = Ok b /\ length b = 16%nat /\ FromBytes b = Ok k.
Proof.
  intros [Hm Hl]. eexists. split; [apply Bytes_unfold |].
  split; [reflexivity |].
  rewrite FromBytes_explicit, (word_of_bytes _ Hm), (word_of_bytes _ Hl).
  now destruct k.
Qed.

Lemma FromBytes_Ok_inv b k : FromBytes b = Ok k -> length b = 16%nat.
Proof.
  intros H. destruct (Nat.eq_dec (length b) 16) as [E | E]; [exact E |].
  rewrite (FromBytes_wrong_length b E) in H. discriminate H.
Qed.

(** X6.  For every identifier with 64-bit halves, [Bytes] returns 16 bytes
    from which [FromBytes] rebuilds the same identifier. *)
Theorem Bytes_FromBytes_roundtrip k :
  KUID_wf k ->
  exists b, Bytes (Some k) = Ok b /\ len b = 16 /\ FromBytes b = Ok k.
Proof.
  intros Hk. destruct (Bytes_FromBytes k Hk) as (b & Eb & Hb & Ek).
  exists b. repeat split; try assumption. unfold len. now rewrite Hb.
Qed.

Lemma Bytes_FromBytes_roundtrip_witness :
  exists b, Bytes (Some (mkKUID 1314564453825188563 11841725276408463360))
            = Ok b
            /\ len b = 16
            /\ FromBytes b
               = Ok (mkKUID 1314564453825188563 11841725276408463360).
Proof.
  apply (Bytes_FromBytes_roundtrip
           (mkKUID 1314564453825188563 11841725276408463360)).
  unfold KUID_wf, is_uint64, uint64_mod. simpl. lia.
Defined.

(** X7.  [FromBytes] is injective: two byte sequences it turns into the
    same identifier are the same 16 bytes. *)
Theorem FromBytes_injective b1 b2 k :
  FromBytes b1 = Ok k -> FromBytes b2 = Ok k -> b1 = b2.
Proof.
  intros H1 H2.
  destruct (FromBytes_Bytes b1 (FromBytes_Ok_inv _ _ H1))
    as (k1 & E1 & B1 & _).
  destruct (FromBytes_Bytes b2 (FromBytes_Ok_inv _ _ H2))
    as (k2 & E2 & B2 & _).
  rewrite H1 in E1. rewrite H2 in E2.
  apply Ok_inj in E1, E2. subst k1 k2.
  rewrite B1 in B2. now apply Ok_inj in B2.
Qed.

Lemma FromBytes_injective_witness :
  FromBytes (str "0123456789abcdef")
  = Ok (mkKUID 3472611983179986487 4051376414998685030)
  /\ str "0123456789abcdef" = str "0123456789abcdef".
Proof.
  assert (FromBytes (str "0123456789abcdef")
          = Ok (mkKUID 3472611983179986487 4051376414998685030)) as H
    by (vm_compute; reflexivity).
  split; [exact H | exact (FromBytes_injective _ _ _ H H)].
Defined.

(** X8.  [NewKUID] hands on the error of the entropy source unchanged;
    when the source succeeds (it fills the 16-byte array, whose length it
    cannot change) the result is the identifier [FromBytes] builds from
    the bytes read, so its [Bytes()] are those bytes, and there is no
    panic. *)
Theorem NewKUID_reads_16_bytes Read :
  (forall buf, length (fst (Read buf)) = length buf) ->
  match snd (Read (make 16)) with
  | Some e => NewKUID Read = Err e
  | None =>
      NewKUID Read = FromBytes (fst (Read (make 16)))
      /\ exists k, NewKUID Read = Ok k
                   /\ Bytes (Some k) = Ok (fst (Read (make 16)))
  end.
Proof.
  intros Hlen. unfold NewKUID. specialize (Hlen (make 16)).
  destruct (Read (make 16)) as [buf [e |]]; cbn [fst snd] in *.
  - reflexivity.
  - change (length (make 16)) with 16%nat in Hlen.
    assert (FromBytes buf
            = (hi <- slice buf 0 8 ;;
               msb <- binary.BigEndian.Uint64 hi ;;
               lo <- slice buf 8 16 ;;
               lsb <- binary.BigEndian.Uint64 lo ;;
               Ok (mkKUID msb lsb))) as E.
    { unfold FromBytes, len. rewrite Hlen. reflexivity. }
    rewrite <- E. split; [reflexivity |].
    destruct (FromBytes_Bytes buf Hlen) as (k & Ek & Eb & _).
    now exists k.
Qed.

Lemma NewKUID_reads_16_bytes_witness :
  NewKUID (fun buf => (buf, None)) = FromBytes (make 16)
  /\ exists k, NewKUID (fun buf => (buf, None)) = Ok k
               /\ Bytes (Some k) = Ok (make 16).
Proof.
  apply (NewKUID_reads_16_bytes (fun buf => (buf, None))).
  intros buf. reflexivity.
Defined.

(* ================================================================= *)
(** ** Further properties: UUID text *)

(** *** Hexadecimal text of bytes *)

Lemma hex_encode_byte b :
  let h := nth (Z.to_nat (Z.shiftr (byte_to_Z b) 4)) hex.hextable x00 in
  let l := nth (Z.to_nat (Z.land (byte_to_Z b) 0x0f)) hex.hextable x00 in
  isHexDigit h = true /\ isHexDigit l = true
  /\ between "A" h "Z" = false /\ between "A" l "Z" = false
  /\ hex.DecodeString [h; l] = Ok [b].
Proof. destruct b; vm_compute; repeat split; reflexivity. Qed.

Lemma fromHexChar_isHexDigit c a :
  hex.fromHexChar c = Some a -> isHexDigit c = true.
Proof.
  destruct c; vm_compute; intros H; first [reflexivity | discriminate H].
Qed.

Lemma DecodeString_cons2 p q t :
  hex.DecodeString (p :: q :: t)
  = (b <- hex.DecodeString [p; q] ;;
     rest <- hex.DecodeString t ;;
     Ok (b ++ rest)).
Proof.
  cbn [hex.DecodeString].
  destruct (hex.fromHexChar p); [| reflexivity].
  destruct (hex.fromHexChar q); [| reflexivity].
  cbn [bind]. now destruct (hex.DecodeString t).
Qed.

Lemma EncodeToString_spec bs :
  length (hex.EncodeToString bs) = (2 * length bs)%nat
  /\ forallb isHexDigit (hex.EncodeToString bs) = true
  /\ is_lower (hex.EncodeToString bs) = true
  /\ hex.DecodeString (hex.EncodeToString bs) = Ok bs.
Proof.
  induction bs as [| b bs (Hl & Hh & Hc & Hd)].
  - now repeat split.
  - destruct (hex_encode_byte b) as (H1 & H2 & H3 & H4 & H5).
    cbv zeta in H1, H2, H3, H4, H5.
    cbn [hex.EncodeToString]. repeat split.
    + cbn [length]. rewrite Hl. lia.
    + cbn [forallb]. now rewrite H1, H2, Hh.
    + unfold is_lower in *. cbn [forallb]. now rewrite H3, H4, Hc.
    + rewrite DecodeString_cons2, H5. cbn [bind]. now rewrite Hd.
Qed.

Lemma DecodeString_Ok_inv n :
  forall s bs, (length s <= n)%nat -> hex.DecodeString s = Ok bs ->
  forallb isHexDigit s = true /\ length s = (2 * length bs)%nat.
Proof.
  induction n as [| n IH]; intros s bs Hn H.
  - destruct s; [| cbn [length] in Hn; lia].
    apply Ok_inj in H. subst bs. now split.
  - destruct s as [| p [| q t]].
    + apply Ok_inj in H. subst bs. now split.
    + cbn [hex.DecodeString] in H.
      destruct (hex.fromHexChar p); discriminate H.
    + cbn [hex.DecodeString] in H.
      destruct (hex.fromHexChar p) as [a |] eqn:Ep; [| discriminate H].
      destruct (hex.fromHexChar q) as [b |] eqn:Eq; [| discriminate H].
      destruct (hex.DecodeString t) as [rest | |] eqn:Et;
        cbn [bind] in H; try discriminate H.
      apply Ok_inj in H. subst bs.
      destruct (IH t rest) as [Hh Hl];
        [cbn [length] in Hn; lia | exact Et |].
      cbn [forallb length].
      rewrite (fromHexChar_isHexDigit p a Ep), (fromHexChar_isHexDigit q b Eq).
      split; [exact Hh | lia].
Qed.

Lemma DecodeString_no_panic n :
  forall s, (length s <= n)%nat -> hex.DecodeString s <> Panic.
Proof.
  induction n as [| n IH]; intros s Hn.
  - destruct s; [discriminate | cbn [length] in Hn; lia].
  - destruct s as [| p [| q t]]; cbn [hex.DecodeString].
    + discriminate.
    + destruct (hex.fromHexChar p); discriminate.
    + destruct (hex.fromHexChar p); [| discriminate].
      destruct (hex.fromHexChar q); [| discriminate].
      specialize (IH t ltac:(cbn [length] in Hn; lia)).
      destruct (hex.DecodeString t); cbn [bind]; congruence.
Qed.

(** *** Inserting and removing the hyphens *)

Lemma hyphenate_explicit
  c0 c1 c2 c3 c4 c5 c6 c7 c8 c9 c10 c11 c12 c13 c14 c15
  c16 c17 c18 c19 c20 c21 c22 c23 c24 c25 c26 c27 c28 c29 c30 c31 :
  hyphenate
    [ c0; c1; c2; c3; c4; c5; c6; c7;
      c8; c9; c10; c11; c12; c13; c14; c15;
      c16; c17; c18; c19; c20; c21; c22; c23;
      c24; c25; c26; c27; c28; c29; c30; c31 ]
  = Ok
    [ c0; c1; c2; c3; c4; c5; c6; c7;
      hyphen; c8; c9; c10; c11; hyphen; c12; c13;
      c14; c15; hyphen; c16; c17; c18; c19; hyphen;
      c20; c21; c22; c23; c24; c25; c26; c27;
      c28; c29; c30; c31 ].
Proof. reflexivity. Qed.

Lemma index_hyphens_explicit
  c0 c1 c2 c3 c4 c5 c6 c7 c8 c9 c10 c11 c12 c13 c14 c15
  c16 c17 c18 c19 c20 c21 c22 c23 c24 c25 c26 c27 c28 c29 c30 c31 :
  let u :=
    [ c0; c1; c2; c3; c4; c5; c6; c7;
      hyphen; c8; c9; c10; c11; hyphen; c12; c13;
      c14; c15; hyphen; c16; c17; c18; c19; hyphen;
      c20; c21; c22; c23; c24; c25; c26; c27;
      c28; c29; c30; c31 ] in
  index u 8 = Ok hyphen /\ index u 13 = Ok hyphen
  /\ index u 18 = Ok hyphen /\ index u 23 = Ok hyphen.
Proof. repeat split. Qed.

Lemma filter_hyphens_explicit
  c0 c1 c2 c3 c4 c5 c6 c7 c8 c9 c10 c11 c12 c13 c14 c15
  c16 c17 c18 c19 c20 c21 c22 c23 c24 c25 c26 c27 c28 c29 c30 c31 :
  filter not_hyphen
    [ c0; c1; c2; c3; c4; c5; c6; c7;
      hyphen; c8; c9; c10; c11; hyphen; c12; c13;
      c14; c15; hyphen; c16; c17; c18; c19; hyphen;
      c20; c21; c22; c23; c24; c25; c26; c27;
      c28; c29; c30; c31 ]
  = filter not_hyphen
    [ c0; c1; c2; c3; c4; c5; c6; c7;
      c8; c9; c10; c11; c12; c13; c14; c15;
      c16; c17; c18; c19; c20; c21; c22; c23;
      c24; c25; c26; c27; c28; c29; c30; c31 ].
Proof.
  change
    [ c0; c1; c2; c3; c4; c5; c6; c7;
      hyphen; c8; c9; c10; c11; hyphen; c12; c13;
      c14; c15; hyphen; c16; c17; c18; c19; hyphen;
      c20; c21; c22; c23; c24; c25; c26; c27;
      c28; c29; c30; c31 ]
    with ([c0; c1; c2; c3; c4; c5; c6; c7] ++ hyphen :: [c8; c9; c10; c11]
       ++ hyphen :: [c12; c13; c14; c15] ++ hyphen :: [c16; c17; c18; c19]
       ++ hyphen :: [c20; c21; c22; c23; c24; c25; c26; c27; c28; c29; c30; c31]).
  change
    [ c0; c1; c2; c3; c4; c5; c6; c7;
      c8; c9; c10; c11; c12; c13; c14; c15;
      c16; c17; c18; c19; c20; c21; c22; c23;
      c24; c25; c26; c27; c28; c29; c30; c31 ]
    with ([c0; c1; c2; c3; c4; c5; c6; c7] ++ [c8; c9; c10; c11]
       ++ [c12; c13; c14; c15] ++ [c16; c17; c18; c19]
       ++ [c20; c21; c22; c23; c24; c25; c26; c27; c28; c29; c30; c31]).
  repeat first [rewrite filter_app | rewrite filter_cons_hyphen].
  reflexivity.
Qed.

Lemma is_lower_explicit
  c0 c1 c2 c3 c4 c5 c6 c7 c8 c9 c10 c11 c12 c13 c14 c15
  c16 c17 c18 c19 c20 c21 c22 c23 c24 c25 c26 c27 c28 c29 c30 c31 :
  is_lower
    [ c0; c1; c2; c3; c4; c5; c6; c7;
      hyphen; c8; c9; c10; c11; hyphen; c12; c13;
      c14; c15; hyphen; c16; c17; c18; c19; hyphen;
      c20; c21; c22; c23; c24; c25; c26; c27;
      c28; c29; c30; c31 ]
  = is_lower
    [ c0; c1; c2; c3; c4; c5; c6; c7;
      c8; c9; c10; c11; c12; c13; c14; c15;
      c16; c17; c18; c19; c20; c21; c22; c23;
      c24; c25; c26; c27; c28; c29; c30; c31 ].
Proof.
  unfold is_lower. cbn [forallb].
  change (negb (between "A" hyphen "Z")) with true.
  cbn [andb]. reflexivity.
Qed.

Lemma valid_explicit
  c0 c1 c2 c3 c4 c5 c6 c7 c8 c9 c10 c11 c12 c13 c14 c15
  c16 c17 c18 c19 c20 c21 c22 c23 c24 c25 c26 c27 c28 c29 c30 c31 :
  forallb isHexDigit
    [ c0; c1; c2; c3; c4; c5; c6; c7;
      c8; c9; c10; c11; c12; c13; c14; c15;
      c16; c17; c18; c19; c20; c21; c22; c23;
      c24; c25; c26; c27; c28; c29; c30; c31 ] = true ->
  valid_uuid_text
    [ c0; c1; c2; c3; c4; c5; c6; c7;
      hyphen; c8; c9; c10; c11; hyphen; c12; c13;
      c14; c15; hyphen; c16; c17; c18; c19; hyphen;
      c20; c21; c22; c23; c24; c25; c26; c27;
      c28; c29; c30; c31 ] = true.
Proof.
  intros H. cbn [forallb] in H.
  repeat (apply andb_prop in H as [? H]). clear H.
  unfold valid_uuid_text.
  cbn [length Nat.eqb andb uuid_chars_ok hyphen_at orb].
  change (Byte.eqb hyphen hyphen) with true.
  repeat (apply andb_true_intro; split; [first [assumption | reflexivity] |]).
  reflexivity.
Qed.

Lemma filter_full {A : Type} (f : A -> bool) (l : list A) :
  length (filter f l) = length l -> filter f l = l.
Proof.
  induction l as [| x l IH]; cbn [filter length]; [reflexivity |].
  pose proof (filter_length_le f l) as Hle.
  destruct (f x); cbn [length]; intros H.
  - f_equal. apply IH. lia.
  - lia.
Qed.

Lemma filter_hex l :
  forallb isHexDigit l = true -> filter not_hyphen l = l.
Proof.
  induction l as [| c l IH]; [reflexivity |].
  cbn [forallb]. intros H. apply andb_prop in H as [Hc Hl].
  rewrite (filter_cons_hex c l Hc). f_equal. now apply IH.
Qed.

Lemma hyphenate_spec l :
  length l = 32%nat -> forallb isHexDigit l = true ->
  exists u, hyphenate l = Ok u
            /\ valid_uuid_text u = true
            /\ filter not_hyphen u = l
            /\ is_lower u = is_lower l
            /\ index u 8 = Ok hyphen /\ index u 13 = Ok hyphen
            /\ index u 18 = Ok hyphen /\ index u 23 = Ok hyphen.
Proof.
  intros Hl Hh. explode_list l Hl.
  eexists. split; [apply hyphenate_explicit |].
  split; [now apply valid_explicit |].
  split; [rewrite filter_hyphens_explicit; now apply filter_hex |].
  split; [apply is_lower_explicit |].
  apply index_hyphens_explicit.
Qed.

(** *** What [FromUUID] accepts *)

Lemma FromUUID_unfold u :
  FromUUID u
  = (c8 <- index u 8 ;;
     if negb (Byte.eqb c8 hyphen) then Err ErrInvalidUUID else
     c13 <- index u 13 ;;
     if negb (Byte.eqb c13 hyphen) then Err ErrInvalidUUID else
     c18 <- index u 18 ;;
     if negb (Byte.eqb c18 hyphen) then Err ErrInvalidUUID else
     c23 <- index u 23 ;;
     if negb (Byte.eqb c23 hyphen) then Err ErrInvalidUUID else
     if negb (len (filter not_hyphen u) =? 32) then Err ErrInvalidUUID else
     if existsb
          (fun c => negb (strings.ContainsRune (str "0123456789abcdefABCDEF") c))
          (range_runes O (filter not_hyphen u))
     then Err ErrInvalidUUID
     else match hex.DecodeString (filter not_hyphen u) with
          | Ok bytes => FromBytes bytes
          | Err _ => Err ErrInvalidUUID
          | Panic => Panic
          end).
Proof.
  unfold FromUUID. rewrite HasPrefix_empty, ReplaceAll_hyphen. reflexivity.
Qed.

Lemma index_cases {A : Type} (s : list A) (i : Z) :
  0 <= i ->
  (exists c, index s i = Ok c /\ i < len s)
  \/ (index s i = Panic /\ len s <= i).
Proof.
  intros Hi. destruct (Z.lt_ge_cases i (len s)) as [Hlt | Hge].
  - left. destruct s as [| d s']; [unfold len in Hlt; simpl in Hlt; lia |].
    exists (nth (Z.to_nat i) (d :: s') d).
    split; [apply index_in_range; lia | exact Hlt].
  - right. split; [now apply index_out_of_range | exact Hge].
Qed.

(** One position check of [FromUUID]: the byte is a hyphen, or the call is
    over. *)
Ltac hyphen_check u i :=
  let c := fresh "c" in
  let E := fresh "E" in
  let B := fresh "B" in
  let L := fresh "L" in
  destruct (index_cases u i ltac:(lia)) as [(c & E & L) | [E L]];
  rewrite E; cbn [bind];
  [ destruct (Byte.eqb c hyphen) eqn:B; cbn [negb];
    [ apply Byte.byte_dec_bl in B; subst c
    | right; left; reflexivity ]
  | left; split; [reflexivity | lia] ].

Lemma FromUUID_cases u :
  (FromUUID u = Panic /\ len u < 24)
  \/ FromUUID u = Err ErrInvalidUUID
  \/ exists k bytes,
       FromUUID u = Ok k
       /\ (index u 8 = Ok hyphen /\ index u 13 = Ok hyphen
           /\ index u 18 = Ok hyphen /\ index u 23 = Ok hyphen)
       /\ length (filter not_hyphen u) = 32%nat
       /\ forallb isHexDigit (filter not_hyphen u) = true
       /\ hex.DecodeString (filter not_hyphen u) = Ok bytes
       /\ FromBytes bytes = Ok k /\ KUID_wf k.
Proof.
  rewrite FromUUID_unfold.
  hyphen_check u 8. hyphen_check u 13. hyphen_check u 18. hyphen_check u 23.
  destruct (Z.eqb_spec (len (filter not_hyphen u)) 32) as [Hlen | _];
    cbn [negb]; [| right; left; reflexivity].
  destruct (existsb _ _); [right; left; reflexivity |].
  destruct (hex.DecodeString (filter not_hyphen u)) as [bytes | e |] eqn:D.
  - destruct (DecodeString_Ok_inv _ _ _ (Nat.le_refl _) D) as [Hh Hl].
    assert (length bytes = 16%nat) as Hb by (unfold len in Hlen; lia).
    destruct (FromBytes_Bytes bytes Hb) as (k & Ek & _ & _ & _ & Hwf).
    right; right. exists k, bytes. rewrite Ek.
    split; [reflexivity |].
    split; [now repeat split |].
    split; [unfold len in Hlen; lia |].
    now repeat (split; [assumption |]).
  - right; left; reflexivity.
  - exfalso. exact (DecodeString_no_panic _ _ (Nat.le_refl _) D).
Qed.

Lemma FromUUID_accepted u :
  index u 8 = Ok hyphen -> index u 13 = Ok hyphen ->
  index u 18 = Ok hyphen -> index u 23 = Ok hyphen ->
  length (filter not_hyphen u) = 32%nat ->
  forallb isHexDigit (filter not_hyphen u) = true ->
  exists k, FromUUID u = Ok k.
Proof.
  intros E8 E13 E18 E23 Hl Hh.
  destruct (hex_decode_encode 16 _ Hl Hh) as (bytes & Ed & Hb & _).
  destruct (FromBytes_Bytes bytes Hb) as (k & Ek & _).
  exists k. rewrite <- Ek.
  apply FromUUID_steps with (clean := filter not_hyphen u); try assumption.
  apply ReplaceAll_hyphen.
Qed.

Lemma valid_of_accepted u :
  length u = 36%nat ->
  index u 8 = Ok hyphen -> index u 13 = Ok hyphen ->
  index u 18 = Ok hyphen -> index u 23 = Ok hyphen ->
  length (filter not_hyphen u) = 32%nat ->
  forallb isHexDigit (filter not_hyphen u) = true ->
  valid_uuid_text u = true.
Proof.
  intros Hlen E8 E13 E18 E23 Hl Hh.
  explode_list u Hlen. clear Hlen.
  apply Ok_inj in E8, E13, E18, E23. subst.
  rewrite filter_hyphens_explicit in Hl, Hh.
  rewrite (filter_full _ _ Hl) in Hh.
  now apply valid_explicit.
Qed.

Lemma FromUUID_valid_wf u :
  valid_uuid_text u = true ->
  exists k, FromUUID u = Ok k /\ KUID_wf k
            /\ ToUUID (Some k) = Ok (ToLower u).
Proof.
  intros Hu. destruct (FromUUID_valid u Hu) as (k & Ek & Et).
  exists k. split; [exact Ek |]. split; [| exact Et].
  destruct (FromUUID_cases u)
    as [[E _] | [E | (k' & bs & E & _ & _ & _ & _ & _ & Hwf)]];
    rewrite Ek in E; try discriminate E.
  apply Ok_inj in E. now subst k'.
Qed.

Lemma ToUUID_spec k :
  exists u bytes,
    Bytes (Some k) = Ok bytes /\ length bytes = 16%nat
    /\ ToUUID (Some k) = Ok u
    /\ valid_uuid_text u = true /\ is_lower u = true
    /\ FromUUID u = FromBytes bytes.
Proof.
  rewrite ToUUID_hyphenate, Bytes_unfold. cbn [bind].
  match goal with
  | |- context [hex.EncodeToString ?l] => set (bytes := l)
  end.
  destruct (EncodeToString_spec bytes) as (Hl & Hh & Hc & Hd).
  change (length bytes) with 16%nat in Hl.
  destruct (hyphenate_spec _ Hl Hh)
    as (u & Eu & Hv & Hf & Hlow & E8 & E13 & E18 & E23).
  exists u, bytes. split; [reflexivity |]. split; [reflexivity |].
  split; [exact Eu |]. split; [exact Hv |].
  split; [now rewrite Hlow |].
  apply FromUUID_steps with (clean := hex.EncodeToString bytes);
    try assumption.
  now rewrite ReplaceAll_hyphen.
Qed.

Lemma ToUUID_FromUUID k :
  KUID_wf k -> exists u, ToUUID (Some k) = Ok u /\ FromUUID u = Ok k.
Proof.
  intros Hk.
  destruct (ToUUID_spec k) as (u & bytes & Eb & _ & Eu & _ & _ & Ef).
  destruct (Bytes_FromBytes k Hk) as (b & Eb' & _ & Ek).
  rewrite Eb in Eb'. apply Ok_inj in Eb'. subst b.
  exists u. split; [exact Eu | now rewrite Ef].
Qed.

(** X9.  [FromUUID] succeeds exactly on the strings that hold a hyphen at
    each of the positions 8, 13, 18 and 23 and whose other bytes, once
    every hyphen is removed, are 32 hexadecimal digits; the length of the
    string itself is not tested. *)
Theorem FromUUID_accepts u :
  (exists k, FromUUID u = Ok k)
  <-> (index u 8 = Ok hyphen /\ index u 13 = Ok hyphen
       /\ index u 18 = Ok hyphen /\ index u 23 = Ok hyphen)
      /\ length (filter not_hyphen u) = 32%nat
      /\ forallb isHexDigit (filter not_hyphen u) = true.
Proof.
  split.
  - intros [k Ek].
    destruct (FromUUID_cases u)
      as [[E _] | [E | (k' & bs & _ & Hi & Hl & Hh & _)]];
      [rewrite Ek in E; discriminate E
      | rewrite Ek in E; discriminate E |].
    now repeat split.
  - intros [(E8 & E13 & E18 & E23) [Hl Hh]].
    now apply FromUUID_accepted.
Qed.

(** X10.  The only error [FromUUID] returns is [ErrInvalidUUID]: the
    errors of [hex.DecodeString] are replaced by it and the length error of
    [FromBytes] cannot occur.  On a string of at least 24 bytes it does not
    panic, and an identifier it returns has 64-bit halves. *)
Theorem FromUUID_failures u :
  (forall e, FromUUID u = Err e -> e = ErrInvalidUUID)
  /\ (24 <= len u -> FromUUID u <> Panic)
  /\ (forall k, FromUUID u = Ok k -> KUID_wf k).
Proof.
  destruct (FromUUID_cases u)
    as [[E L] | [E | (k' & bs & E & _ & _ & _ & _ & _ & Hwf)]];
    rewrite E; (split; [| split]).
  - discriminate.
  - lia.
  - discriminate.
  - intros e H. now injection H as <-.
  - discriminate.
  - discriminate.
  - discriminate.
  - discriminate.
  - intros k H. apply Ok_inj in H. now subst k'.
Qed.

Lemma FromUUID_failures_witness :
  ErrInvalidUUID = ErrInvalidUUID
  /\ FromUUID (str "00000000-0000-0000-0000-00000000000g") <> Panic
  /\ KUID_wf (mkKUID 0 1).
Proof.
  split; [| split].
  - apply (proj1 (FromUUID_failures
                    (str "00000000-0000-0000-0000-00000000000g"))).
    vm_compute. reflexivity.
  - apply (proj1 (proj2 (FromUUID_failures
                           (str "00000000-0000-0000-0000-00000000000g")))).
    vm_compute. discriminate.
  - apply (proj2 (proj2 (FromUUID_failures
                           (str "00000000-0000-0000-0000-000000000001")))).
    vm_compute. reflexivity.
Defined.

(** X11.  On a 36-character string [FromUUID] decides well-formedness: it
    succeeds when the string is hyphenated 8-4-4-4-12 with hexadecimal
    digits elsewhere, and returns [ErrInvalidUUID] (no panic) when it is
    not. *)
Theorem FromUUID_36_characters u :
  len u = 36 ->
  (valid_uuid_text u = true -> exists k, FromUUID u = Ok k)
  /\ (valid_uuid_text u = false -> FromUUID u = Err ErrInvalidUUID).
Proof.
  intros Hlen. split.
  - intros Hv. destruct (FromUUID_valid u Hv) as (k & Ek & _).
    exists k. exact Ek.
  - intros Hv.
    destruct (FromUUID_cases u)
      as [[E L] | [E | (k & bs & _ & (E8 & E13 & E18 & E23) & Hl & Hh & _)]].
    + lia.
    + exact E.
    + rewrite (valid_of_accepted u) in Hv; try assumption;
        [discriminate Hv |].
      unfold len in Hlen. lia.
Qed.

Lemma FromUUID_36_characters_witness :
  (exists k, FromUUID (str "d9db5cf3-c755-4f76-8746-04120f2644c6") = Ok k)
  /\ FromUUID (str "d9db5cf3-c755-4f76-8746-04120f2644cg") = Err ErrInvalidUUID
  /\ FromUUID (str "d9db5cf3c-755-4f76-8746-04120f2644c6") = Err ErrInvalidUUID.
Proof.
  split; [| split].
  - apply (proj1 (FromUUID_36_characters
                    (str "d9db5cf3-c755-4f76-8746-04120f2644c6") eq_refl)).
    vm_compute. reflexivity.
  - apply (proj2 (FromUUID_36_characters
                    (str "d9db5cf3-c755-4f76-8746-04120f2644cg") eq_refl)).
    vm_compute. reflexivity.
  - apply (proj2 (FromUUID_36_characters
                    (str "d9db5cf3c-755-4f76-8746-04120f2644c6") eq_refl)).
    vm_compute. reflexivity.
Defined.

(** X12.  [FromUUID] does not see the case of the hexadecimal letters: a
    well-formed text and its lower-case form give the same identifier, and
    two well-formed texts give the same identifier exactly when they agree
    up to case. *)
Theorem FromUUID_case_insensitive :
  (forall u, valid_uuid_text u = true -> FromUUID (ToLower u) = FromUUID u)
  /\ (forall u1 u2,
        valid_uuid_text u1 = true -> valid_uuid_text u2 = true ->
        (FromUUID u1 = FromUUID u2 <-> ToLower u1 = ToLower u2)).
Proof.
  assert (forall u, valid_uuid_text u = true ->
            exists k, FromUUID u = Ok k /\ FromUUID (ToLower u) = Ok k
                      /\ ToUUID (Some k) = Ok (ToLower u)) as Hboth.
  { intros u Hu. destruct (FromUUID_valid_wf u Hu) as (k & Ek & Hwf & Et).
    destruct (ToUUID_FromUUID k Hwf) as (u' & Eu' & Ek').
    rewrite Et in Eu'. apply Ok_inj in Eu'. subst u'.
    exists k. split; [exact Ek |]. split; [exact Ek' | exact Et]. }
  split.
  - intros u Hu. destruct (Hboth u Hu) as (k & E1 & E2 & _).
    rewrite E1, E2. reflexivity.
  - intros u1 u2 H1 H2.
    destruct (Hboth u1 H1) as (k1 & E1 & L1 & T1).
    destruct (Hboth u2 H2) as (k2 & E2 & L2 & T2).
    rewrite E1, E2. split.
    + intros E. apply Ok_inj in E. subst k2.
      rewrite T1 in T2. apply Ok_inj in T2. exact T2.
    + intros E. rewrite E, L2 in L1. apply Ok_inj in L1. rewrite L1.
      reflexivity.
Qed.

Lemma FromUUID_case_insensitive_witness :
  FromUUID (ToLower (str "D9DB5CF3-c755-4F76-8746-04120f2644C6"))
  = FromUUID (str "D9DB5CF3-c755-4F76-8746-04120f2644C6")
  /\ (FromUUID (str "D9DB5CF3-c755-4F76-8746-04120f2644C6")
      = FromUUID (str "d9db5cf3-C755-4f76-8746-04120F2644c6")
      <-> ToLower (str "D9DB5CF3-c755-4F76-8746-04120f2644C6")
          = ToLower (str "d9db5cf3-C755-4f76-8746-04120F2644c6")).
Proof.
  split.
  - apply (proj1 FromUUID_case_insensitive
                 (str "D9DB5CF3-c755-4F76-8746-04120f2644C6")).
    vm_compute. reflexivity.
  - apply (proj2 FromUUID_case_insensitive
                 (str "D9DB5CF3-c755-4F76-8746-04120f2644C6")
                 (str "d9db5cf3-C755-4f76-8746-04120F2644c6"));
      vm_compute; reflexivity.
Defined.

(** X13.  The scenario of [TestKnownValues] holds for every well-formed
    UUID text, not only the four of the test: UUID text to identifier, to
    compact text and back gives an identifier [Equal] to the first, whose
    UUID text is the input in lower case. *)
Theorem known_value_scenario_holds u :
  valid_uuid_text u = true ->
  known_value_scenario u = Ok (true, ToLower u).
Proof.
  intros Hu. destruct (FromUUID_valid_wf u Hu) as (k & Ek & Hwf & Et).
  unfold known_value_scenario.
  rewrite Ek. cbn [bind].
  rewrite String_digits. cbn [bind].
  rewrite (FromString_digits k Hwf). cbn [bind].
  unfold Equal. cbn [deref bind]. rewrite !Z.eqb_refl. cbn [andb].
  now rewrite Et.
Qed.

Lemma known_value_scenario_holds_witness :
  known_value_scenario (str "123E4567-E89B-12D3-A456-426614174000")
  = Ok (true, ToLower (str "123E4567-E89B-12D3-A456-426614174000")).
Proof.
  apply (known_value_scenario_holds
           (str "123E4567-E89B-12D3-A456-426614174000")).
  vm_compute. reflexivity.
Defined.

(** X14.  For every identifier with 64-bit halves, [ToUUID] returns a text
    from which [FromUUID] rebuilds the same identifier. *)
Theorem ToUUID_FromUUID_roundtrip k :
  KUID_wf k ->
  exists u, ToUUID (Some k) = Ok u /\ FromUUID u = Ok k.
Proof. apply ToUUID_FromUUID. Qed.

Lemma ToUUID_FromUUID_roundtrip_witness :
  exists u, ToUUID (Some (mkKUID 18446744073709551615 0)) = Ok u
            /\ FromUUID u = Ok (mkKUID 18446744073709551615 0).
Proof.
  apply (ToUUID_FromUUID_roundtrip (mkKUID 18446744073709551615 0)).
  unfold KUID_wf, is_uint64, uint64_mod. simpl. lia.
Defined.

(** X15.  On a non-nil identifier [ToUUID] never fails, and what it
    returns is well-formed UUID text in lower case: 36 characters, hyphens
    at 8, 13, 18 and 23, lower-case hexadecimal digits elsewhere.  On a nil
    receiver [ToUUID] and [Bytes] panic. *)
Theorem ToUUID_shape :
  (forall k, exists u, ToUUID (Some k) = Ok u
                       /\ len u = 36
                       /\ valid_uuid_text u = true
                       /\ is_lower u = true)
  /\ ToUUID None = Panic /\ Bytes None = Panic.
Proof.
  split; [| split; reflexivity].
  intros k.
  destruct (ToUUID_spec k) as (u & bytes & _ & _ & Eu & Hv & Hl & _).
  exists u. repeat split; try assumption.
  unfold valid_uuid_text in Hv. apply andb_prop in Hv as [Hlen _].
  apply Nat.eqb_eq in Hlen. unfold len. now rewrite Hlen.
Qed.

(** X16.  [Equal] is false whenever its argument is nil, even on a nil
    receiver, and panics on a nil receiver with a non-nil argument; on two
    non-nil identifiers it never panics, is true exactly when they are the
    same pair of halves, and does not depend on the order of the two. *)
Theorem Equal_spec :
  (forall k, Equal k None = Ok false)
  /\ (forall b, Equal None (Some b) = Panic)
  /\ (forall a b, exists r, Equal (Some a) (Some b) = Ok r
                            /\ Equal (Some b) (Some a) = Ok r
                            /\ (r = true <-> a = b)).
Proof.
  split; [reflexivity |]. split; [reflexivity |].
  intros [am al] [bm bl].
  exists ((am =? bm) && (al =? bl)). split; [reflexivity |]. split.
  - unfold Equal. cbn [deref bind msb lsb].
    now rewrite (Z.eqb_sym bm am), (Z.eqb_sym bl al).
  - rewrite andb_true_iff, !Z.eqb_eq. split.
    + now intros [-> ->].
    + intros E. now injection E.
Qed.
